(** * The roller-coaster animation service (animation.service.ts)

    A shallow embedding of [AnimationService]: the parametric path
    generator with its two closure-captured scratch vectors, the per-frame
    motion update (progress, velocity, camera and vehicle placement) and
    the teardown.

    Numbers.  JavaScript numbers are IEEE-754 doubles.  They are modelled
    as exact reals extended with the two infinities and NaN: rounding and
    overflow are idealised away, signed zeros are identified, and the
    special values arise exactly where exact arithmetic is undefined
    (division by zero, square root of a negative number, infinity minus
    infinity, zero times infinity, remainder by zero).

    three.js.  [Vector3] and [Matrix4.makeBasis] follow the three.js
    sources ([normalize] is [divideScalar(length() || 1)], [divideScalar s]
    is [multiplyScalar(1 / s)]).  The camera keeps the position it was
    given and the last argument of [lookAt]; the vehicle keeps its position
    and the basis matrix handed to [rotation.setFromRotationMatrix]. *)

From Stdlib Require Import Reals Lra Lia ZArith List Bool String.
Import ListNotations.

(* ================================================================== *)
(** * JavaScript numbers *)
(* ================================================================== *)

Module JS.

Local Open Scope R_scope.

Inductive num : Type :=
| Fin (r : R)
| Inf (positive : bool)
| NaN.

Definition finite (a : num) : Prop :=
  match a with Fin _ => True | _ => False end.

Definition Rsign_pos (r : R) : bool :=
  if Rlt_dec 0 r then true else false.

Definition neg (a : num) : num :=
  match a with
  | Fin r => Fin (- r)
  | Inf s => Inf (negb s)
  | NaN => NaN
  end.

Definition add (a b : num) : num :=
  match a, b with
  | NaN, _ | _, NaN => NaN
  | Fin r1, Fin r2 => Fin (r1 + r2)
  | Fin _, Inf s | Inf s, Fin _ => Inf s
  | Inf s1, Inf s2 => if Bool.eqb s1 s2 then Inf s1 else NaN
  end.

Definition sub (a b : num) : num := add a (neg b).

Definition mul (a b : num) : num :=
  match a, b with
  | NaN, _ | _, NaN => NaN
  | Fin r1, Fin r2 => Fin (r1 * r2)
  | Fin r, Inf s | Inf s, Fin r =>
      if Req_dec_T r 0 then NaN
      else Inf (if Rsign_pos r then s else negb s)
  | Inf s1, Inf s2 => Inf (Bool.eqb s1 s2)
  end.

Definition div (a b : num) : num :=
  match a, b with
  | NaN, _ | _, NaN => NaN
  | Fin r1, Fin r2 =>
      if Req_dec_T r2 0
      then (if Req_dec_T r1 0 then NaN else Inf (Rsign_pos r1))
      else Fin (r1 / r2)
  | Fin _, Inf _ => Fin 0
  | Inf s, Fin r => Inf (if Rlt_dec r 0 then negb s else s)
  | Inf _, Inf _ => NaN
  end.

(** Truncation toward zero, as in the definition of [%]. *)
Definition Rtrunc (r : R) : Z :=
  if Rle_dec 0 r then Int_part r else (- Int_part (- r))%Z.

(** [a % b]: the remainder has the sign of the dividend. *)
Definition rem (a b : num) : num :=
  match a, b with
  | NaN, _ | _, NaN => NaN
  | Inf _, _ => NaN
  | Fin r, Inf _ => Fin r
  | Fin r1, Fin r2 =>
      if Req_dec_T r2 0 then NaN
      else Fin (r1 - r2 * IZR (Rtrunc (r1 / r2)))
  end.

Definition Math_sqrt (a : num) : num :=
  match a with
  | Fin r => if Rlt_dec r 0 then NaN else Fin (sqrt r)
  | Inf true => Inf true
  | Inf false => NaN
  | NaN => NaN
  end.

Definition Math_sin (a : num) : num :=
  match a with Fin r => Fin (sin r) | _ => NaN end.

Definition Math_cos (a : num) : num :=
  match a with Fin r => Fin (cos r) | _ => NaN end.

Definition Math_max (a b : num) : num :=
  match a, b with
  | NaN, _ | _, NaN => NaN
  | Inf true, _ | _, Inf true => Inf true
  | Inf false, c | c, Inf false => c
  | Fin r1, Fin r2 => Fin (Rmax r1 r2)
  end.

Definition Math_min (a b : num) : num :=
  match a, b with
  | NaN, _ | _, NaN => NaN
  | Inf false, _ | _, Inf false => Inf false
  | Inf true, c | c, Inf true => c
  | Fin r1, Fin r2 => Fin (Rmin r1 r2)
  end.

(** Truthiness of a number: 0 and NaN are falsy. *)
Definition truthy (a : num) : bool :=
  match a with
  | Fin r => if Req_dec_T r 0 then false else true
  | Inf _ => true
  | NaN => false
  end.

(** [a || b] on numbers. *)
Definition lor (a b : num) : num := if truthy a then a else b.

Definition Math_PI : num := Fin PI.

(** The order on numbers: every comparison with NaN is false. *)
Definition lt (a b : num) : Prop :=
  match a, b with
  | NaN, _ | _, NaN => False
  | Fin r1, Fin r2 => r1 < r2
  | Inf p, Fin _ => p = false
  | Fin _, Inf p => p = true
  | Inf p1, Inf p2 => p1 = false /\ p2 = true
  end.

Definition le (a b : num) : Prop :=
  match a, b with
  | NaN, _ | _, NaN => False
  | Fin r1, Fin r2 => r1 <= r2
  | Inf p, Fin _ => p = false
  | Fin _, Inf p => p = true
  | Inf p1, Inf p2 => p1 = false \/ p2 = true
  end.

End JS.

Import JS.
Coercion Fin : R >-> num.

Declare Scope js_scope.
Delimit Scope js_scope with js.
Bind Scope js_scope with num.
Notation "a + b" := (add a b) : js_scope.
Notation "a - b" := (sub a b) : js_scope.
Notation "a * b" := (mul a b) : js_scope.
Notation "a / b" := (div a b) : js_scope.
Notation "- a" := (neg a) : js_scope.
Notation "a 'mod' b" := (rem a b) (at level 40, no associativity) : js_scope.
Notation "a || b" := (lor a b) : js_scope.
Notation "a < b" := (lt a b) : js_scope.
Notation "a <= b" := (le a b) : js_scope.
Notation "a <= b < c" := (le a b /\ lt b c) : js_scope.
Notation "a <= b <= c" := (le a b /\ le b c) : js_scope.

(* ================================================================== *)
(** * THREE.Vector3 and Matrix4.makeBasis *)
(* ================================================================== *)

Module THREE.

Record Vector3 : Type := mkVector3 { x : num; y : num; z : num }.

(** [new THREE.Vector3()] *)
Definition newVector3 : Vector3 := mkVector3 0%R 0%R 0%R.

Definition set (_ : Vector3) (a b c : num) : Vector3 := mkVector3 a b c.
Definition copy (_ v : Vector3) : Vector3 := mkVector3 (x v) (y v) (z v).
Definition clone (v : Vector3) : Vector3 := mkVector3 (x v) (y v) (z v).

Definition addV (u v : Vector3) : Vector3 :=
  mkVector3 (x u + x v)%js (y u + y v)%js (z u + z v)%js.

Definition subV (u v : Vector3) : Vector3 :=
  mkVector3 (x u - x v)%js (y u - y v)%js (z u - z v)%js.

Definition multiplyScalar (v : Vector3) (s : num) : Vector3 :=
  mkVector3 (x v * s)%js (y v * s)%js (z v * s)%js.

Definition divideScalar (v : Vector3) (s : num) : Vector3 :=
  multiplyScalar v (Fin 1 / s)%js.

Definition length (v : Vector3) : num :=
  Math_sqrt (x v * x v + y v * y v + z v * z v)%js.

Definition normalize (v : Vector3) : Vector3 :=
  divideScalar v (length v || Fin 1)%js.

Definition crossVectors (_ a b : Vector3) : Vector3 :=
  mkVector3 (y a * z b - z a * y b)%js
            (z a * x b - x a * z b)%js
            (x a * y b - y a * x b)%js.

(** The three columns written by [Matrix4.makeBasis]. *)
Record Matrix4 : Type := mkBasis { xAxis : Vector3; yAxis : Vector3; zAxis : Vector3 }.

Definition makeBasis (a b c : Vector3) : Matrix4 := mkBasis a b c.

Definition finiteV (v : Vector3) : Prop :=
  finite (x v) /\ finite (y v) /\ finite (z v).

Definition finiteM (m : Matrix4) : Prop :=
  finiteV (xAxis m) /\ finiteV (yAxis m) /\ finiteV (zAxis m).

End THREE.

Import THREE.

(* ================================================================== *)
(** * CONFIG *)
(* ================================================================== *)

Module CONFIG.
Local Open Scope R_scope.
Definition CURVE_SCALE : num := 2.5.
Definition INITIAL_VELOCITY : num := 0.0002.
Definition MIN_VELOCITY : num := 0.00005.
Definition MAX_VELOCITY : num := 0.004.
Definition GRAVITY_FACTOR : num := 0.000003.
Definition VELOCITY_DAMPING : num := 0.995.
Definition FIXED_DELTA_TIME : num := 16.
End CONFIG.

(* ================================================================== *)
(** * The parametric curve object

    [createParametricCurve] returns an object closing over two scratch
    vectors, [vector] and [vector2]; both methods return a reference to
    one of them.  [ParametricCurve] is an interface: the closed-form
    coordinates evaluated by [getPointAt] are kept in the field [xyz], so
    that the motion update can also be run on another path of the same
    shape.  [createParametricCurve] installs the coordinates of the
    source. *)
(* ================================================================== *)

Record ParametricCurve : Type := mkCurve {
  xyz : num -> num * num * num;
  vector : Vector3;
  vector2 : Vector3
}.

(** A reference to one of the two scratch vectors of the closure. *)
Inductive VecRef : Type := Ref_vector | Ref_vector2.

Definition deref (r : VecRef) (c : ParametricCurve) : Vector3 :=
  match r with Ref_vector => vector c | Ref_vector2 => vector2 c end.

Definition set_vector (v : Vector3) (c : ParametricCurve) : ParametricCurve :=
  mkCurve (xyz c) v (vector2 c).

Definition set_vector2 (v : Vector3) (c : ParametricCurve) : ParametricCurve :=
  mkCurve (xyz c) (vector c) v.

(** [return vector.set(x, y, z).multiplyScalar(CONFIG.CURVE_SCALE)] *)
Definition getPointAt (t : num) (c : ParametricCurve) : VecRef * ParametricCurve :=
  let '(x0, y0, z0) := xyz c t in
  let c := set_vector (set (vector c) x0 y0 z0) c in
  let c := set_vector (multiplyScalar (vector c) CONFIG.CURVE_SCALE) c in
  (Ref_vector, c).

(** [vector2.copy(this.getPointAt(t2)).sub(this.getPointAt(t1)).normalize()]:
    the receiver chain is evaluated left to right, so [getPointAt(t2)] runs
    and is copied before [getPointAt(t1)] overwrites [vector]. *)
Definition getTangentAt (t : num) (c : ParametricCurve) : VecRef * ParametricCurve :=
  let delta : num := 0.0001%R in
  let t1 := Math_max 0%R (t - delta)%js in
  let t2 := Math_min 1%R (t + delta)%js in
  let '(p2, c) := getPointAt t2 c in
  let c := set_vector2 (copy (vector2 c) (deref p2 c)) c in
  let '(p1, c) := getPointAt t1 c in
  let c := set_vector2 (subV (vector2 c) (deref p1 c)) c in
  let c := set_vector2 (normalize (vector2 c)) c in
  (Ref_vector2, c).

(** The coordinates computed in the source's [getPointAt]. *)
Definition rollerCoasterXYZ (t : num) : num * num * num :=
  let PI2 := (Math_PI * Fin 2)%js in
  let angle := (t * PI2)%js in
  let x0 := (Math_sin (angle * Fin 2) * Math_cos (angle * Fin 3) * Fin 60)%js in
  let y0 := (Math_sin (angle * Fin 4) * Fin 8 + Math_cos (angle * Fin 8) * Fin 4
             + Fin 15)%js in
  let z0 := (Math_sin (angle * Fin 1.5) * Math_cos (angle * Fin 2) * Fin 60)%js in
  (x0, y0, z0).

Definition createParametricCurve : ParametricCurve :=
  mkCurve rollerCoasterXYZ newVector3 newVector3.

(** The closed forms the two methods compute, as functions of [t] alone. *)
Definition positionAt (f : num -> num * num * num) (t : num) : Vector3 :=
  let '(x0, y0, z0) := f t in
  multiplyScalar (mkVector3 x0 y0 z0) CONFIG.CURVE_SCALE.

Definition tangentAt (f : num -> num * num * num) (t : num) : Vector3 :=
  normalize (subV (positionAt f (Math_min 1%R (t + Fin 0.0001)%js))
                  (positionAt f (Math_max 0%R (t - Fin 0.0001)%js))).

(* ================================================================== *)
(** * The service state and the host *)
(* ================================================================== *)

(** An [Object3D] of the scene graph (the camera, the car model). *)
Record Object3D : Type := mkObject3D {
  position : Vector3;
  scale : Vector3;
  lookAtTarget : option Vector3;  (* the last argument of [lookAt] *)
  rotation : option Matrix4       (* the matrix last given to
                                     [rotation.setFromRotationMatrix],
                                     turned by later [rotateY] calls *)
}.

Definition newObject3D : Object3D :=
  mkObject3D newVector3 (mkVector3 1%R 1%R 1%R) None None.

Inductive Geometry : Type :=
| RollerCoasterGeometry | RollerCoasterLiftersGeometry
| RollerCoasterShadowGeometry | PlaneGeometry.

Inductive Material : Type :=
| TrackMaterial | LiftersMaterial | ShadowMaterial | GroundMaterial.

Inductive Resource : Type :=
| RGeometry (g : Geometry)
| RMaterial (m : Material).

Inductive SceneChild : Type :=
| HemisphereLight | AmbientLight | DirectionalLight
| Mesh (g : Geometry) (m : Material)
| CarModel.

Record WebGLRenderer : Type := mkRenderer {
  disposed : bool;
  contextLost : bool;
  framesRendered : nat
}.

(** The fields of [AnimationService] followed by what the host keeps:
    the animation-frame requests not yet run or cancelled, the next
    request handle, whether the model loader still owes its callback, and
    the log of [dispose()] calls received by geometries and materials. *)
Record World : Type := mkWorld {
  scene : option (list SceneChild);
  camera : option Object3D;
  renderer : option WebGLRenderer;
  animationId : nat;
  progress : num;
  velocity : num;
  curve : option ParametricCurve;
  carModel : option Object3D;
  mixer : option num;
  mouseX : num;
  geometries : list Geometry;
  materials : list Material;
  rafPending : list nat;
  rafNext : nat;
  loaderPending : bool;
  released : list Resource
}.

(** Field values of a service that has been constructed and not yet
    initialised, in a fresh host. *)
Definition newAnimationService : World :=
  mkWorld None None None 0 0%R CONFIG.INITIAL_VELOCITY None None None 0%R
          [] [] [] 1 false [].

Definition set_scene v w :=
  mkWorld v (camera w) (renderer w) (animationId w)
          (progress w) (velocity w) (curve w) (carModel w)
          (mixer w) (mouseX w) (geometries w) (materials w)
          (rafPending w) (rafNext w) (loaderPending w) (released w).

Definition set_camera v w :=
  mkWorld (scene w) v (renderer w) (animationId w)
          (progress w) (velocity w) (curve w) (carModel w)
          (mixer w) (mouseX w) (geometries w) (materials w)
          (rafPending w) (rafNext w) (loaderPending w) (released w).

Definition set_renderer v w :=
  mkWorld (scene w) (camera w) v (animationId w)
          (progress w) (velocity w) (curve w) (carModel w)
          (mixer w) (mouseX w) (geometries w) (materials w)
          (rafPending w) (rafNext w) (loaderPending w) (released w).

Definition set_animationId v w :=
  mkWorld (scene w) (camera w) (renderer w) v
          (progress w) (velocity w) (curve w) (carModel w)
          (mixer w) (mouseX w) (geometries w) (materials w)
          (rafPending w) (rafNext w) (loaderPending w) (released w).

Definition set_progress v w :=
  mkWorld (scene w) (camera w) (renderer w) (animationId w)
          v (velocity w) (curve w) (carModel w)
          (mixer w) (mouseX w) (geometries w) (materials w)
          (rafPending w) (rafNext w) (loaderPending w) (released w).

Definition set_velocity v w :=
  mkWorld (scene w) (camera w) (renderer w) (animationId w)
          (progress w) v (curve w) (carModel w)
          (mixer w) (mouseX w) (geometries w) (materials w)
          (rafPending w) (rafNext w) (loaderPending w) (released w).

Definition set_curve v w :=
  mkWorld (scene w) (camera w) (renderer w) (animationId w)
          (progress w) (velocity w) v (carModel w)
          (mixer w) (mouseX w) (geometries w) (materials w)
          (rafPending w) (rafNext w) (loaderPending w) (released w).

Definition set_carModel v w :=
  mkWorld (scene w) (camera w) (renderer w) (animationId w)
          (progress w) (velocity w) (curve w) v
          (mixer w) (mouseX w) (geometries w) (materials w)
          (rafPending w) (rafNext w) (loaderPending w) (released w).

Definition set_mixer v w :=
  mkWorld (scene w) (camera w) (renderer w) (animationId w)
          (progress w) (velocity w) (curve w) (carModel w)
          v (mouseX w) (geometries w) (materials w)
          (rafPending w) (rafNext w) (loaderPending w) (released w).

Definition set_mouseX v w :=
  mkWorld (scene w) (camera w) (renderer w) (animationId w)
          (progress w) (velocity w) (curve w) (carModel w)
          (mixer w) v (geometries w) (materials w)
          (rafPending w) (rafNext w) (loaderPending w) (released w).

Definition set_geometries v w :=
  mkWorld (scene w) (camera w) (renderer w) (animationId w)
          (progress w) (velocity w) (curve w) (carModel w)
          (mixer w) (mouseX w) v (materials w)
          (rafPending w) (rafNext w) (loaderPending w) (released w).

Definition set_materials v w :=
  mkWorld (scene w) (camera w) (renderer w) (animationId w)
          (progress w) (velocity w) (curve w) (carModel w)
          (mixer w) (mouseX w) (geometries w) v
          (rafPending w) (rafNext w) (loaderPending w) (released w).

Definition set_rafPending v w :=
  mkWorld (scene w) (camera w) (renderer w) (animationId w)
          (progress w) (velocity w) (curve w) (carModel w)
          (mixer w) (mouseX w) (geometries w) (materials w)
          v (rafNext w) (loaderPending w) (released w).

Definition set_rafNext v w :=
  mkWorld (scene w) (camera w) (renderer w) (animationId w)
          (progress w) (velocity w) (curve w) (carModel w)
          (mixer w) (mouseX w) (geometries w) (materials w)
          (rafPending w) v (loaderPending w) (released w).

Definition set_loaderPending v w :=
  mkWorld (scene w) (camera w) (renderer w) (animationId w)
          (progress w) (velocity w) (curve w) (carModel w)
          (mixer w) (mouseX w) (geometries w) (materials w)
          (rafPending w) (rafNext w) v (released w).

Definition set_released v w :=
  mkWorld (scene w) (camera w) (renderer w) (animationId w)
          (progress w) (velocity w) (curve w) (carModel w)
          (mixer w) (mouseX w) (geometries w) (materials w)
          (rafPending w) (rafNext w) (loaderPending w) v.

Definition set_position v (o : Object3D) :=
  mkObject3D v (scale o) (lookAtTarget o) (rotation o).
Definition set_scale v (o : Object3D) :=
  mkObject3D (position o) v (lookAtTarget o) (rotation o).
Definition set_lookAtTarget v (o : Object3D) :=
  mkObject3D (position o) (scale o) v (rotation o).
Definition set_rotation v (o : Object3D) :=
  mkObject3D (position o) (scale o) (lookAtTarget o) v.

(* ================================================================== *)
(** * Methods run in a state-and-exception monad

    A method either completes with a value and a new world, or throws the
    [TypeError] JavaScript raises on a property access through
    [undefined] (a field marked [!] that [initialize] has not assigned
    yet). *)
(* ================================================================== *)

Inductive Outcome (A : Type) : Type :=
| Ok (a : A) (w : World)
| TypeError.
Arguments Ok {A} a w.
Arguments TypeError {A}.

Definition M (A : Type) : Type := World -> Outcome A.

Definition ret {A} (a : A) : M A := fun w => Ok a w.

Definition bind {A B} (m : M A) (k : A -> M B) : M B :=
  fun w => match m w with
           | Ok a w' => k a w'
           | TypeError => TypeError
           end.

Definition throw {A} : M A := fun _ => TypeError.

Definition gets {A} (f : World -> A) : M A := fun w => Ok (f w) w.

Definition modify (f : World -> World) : M unit := fun w => Ok tt (f w).

(** Reading a field that must hold an object. *)
Definition the {A} (f : World -> option A) : M A :=
  fun w => match f w with Some a => Ok a w | None => TypeError end.

Declare Scope monad_scope.
Delimit Scope monad_scope with monad.
Notation "x <- m ;; k" := (bind m (fun x => k))
  (at level 61, m at next level, right associativity) : monad_scope.
Notation "m ;; k" := (bind m (fun _ => k))
  (at level 61, right associativity) : monad_scope.
Local Open Scope monad_scope.

(** The final world of a run, when it completed. *)
Definition exec {A} (m : M A) (w : World) : option World :=
  match m w with Ok _ w' => Some w' | TypeError => None end.

(** Calling a method of [this.curve]. *)
Definition onCurve (f : ParametricCurve -> VecRef * ParametricCurve) : M VecRef :=
  c <- the curve ;;
  let '(r, c') := f c in
  modify (set_curve (Some c')) ;;
  ret r.

(** Reading through a reference into the curve's closure. *)
Definition read (r : VecRef) : M Vector3 :=
  c <- the curve ;; ret (deref r c).

(** Mutating the vector a reference points to. *)
Definition update (r : VecRef) (f : Vector3 -> Vector3) : M unit :=
  c <- the curve ;;
  modify (set_curve (Some match r with
                          | Ref_vector => set_vector (f (vector c)) c
                          | Ref_vector2 => set_vector2 (f (vector2 c)) c
                          end)).

Fixpoint forEach {A} (l : list A) (f : A -> M unit) : M unit :=
  match l with
  | [] => ret tt
  | a :: l' => f a ;; forEach l' f
  end.

(* ================================================================== *)
(** * The host: animation frames *)
(* ================================================================== *)

(** Handles are positive and never reused; the request is queued. *)
Definition requestAnimationFrame : M nat :=
  id <- gets rafNext ;;
  modify (fun w => set_rafPending (rafPending w ++ [id]) w) ;;
  modify (set_rafNext (S id)) ;;
  ret id.

Definition cancelAnimationFrame (id : nat) : M unit :=
  modify (fun w => set_rafPending (remove Nat.eq_dec id (rafPending w)) w).

(** [renderer.render(scene, camera)] *)
Definition render (r : WebGLRenderer) : WebGLRenderer :=
  mkRenderer (disposed r) (contextLost r) (S (framesRendered r)).

(** [renderer.dispose()] and [renderer.forceContextLoss()] *)
Definition rendererDispose (r : WebGLRenderer) : WebGLRenderer :=
  mkRenderer true (contextLost r) (framesRendered r).

Definition forceContextLoss (r : WebGLRenderer) : WebGLRenderer :=
  mkRenderer (disposed r) true (framesRendered r).

(** [Object3D.rotateY(angle)]: the orientation is composed with a rotation
    by [angle] about the object's own Y axis. *)
Definition rotateY (angle : num) (o : Object3D) : Object3D :=
  match rotation o with
  | None => o
  | Some m =>
      let c := Math_cos angle in
      let s := Math_sin angle in
      set_rotation
        (Some (mkBasis
                 (subV (multiplyScalar (xAxis m) c) (multiplyScalar (zAxis m) s))
                 (yAxis m)
                 (addV (multiplyScalar (xAxis m) s) (multiplyScalar (zAxis m) c))))
        o
  end.

(* ================================================================== *)
(** * AnimationService *)
(* ================================================================== *)

Definition setMouseX (normalizedX : num) : M unit :=
  modify (set_mouseX normalizedX).

Definition updateCameraPosition : M unit :=
  modify (fun w => set_progress (progress w + velocity w)%js w) ;;
  modify (fun w => set_progress (progress w mod Fin 1)%js w) ;;

  p <- gets progress ;;
  position_ <- onCurve (getPointAt p) ;;
  p <- gets progress ;;
  tangent <- onCurve (getTangentAt p) ;;

  tv <- read tangent ;;
  let slopeEffect := (- y tv)%js in
  let acceleration :=
    (slopeEffect * CONFIG.GRAVITY_FACTOR * CONFIG.FIXED_DELTA_TIME)%js in
  modify (fun w => set_velocity (velocity w + acceleration)%js w) ;;
  modify (fun w => set_velocity (velocity w * CONFIG.VELOCITY_DAMPING)%js w) ;;

  modify (fun w => set_velocity
                     (Math_max CONFIG.MIN_VELOCITY
                               (Math_min CONFIG.MAX_VELOCITY (velocity w))) w) ;;

  tv <- read tangent ;;
  let cameraOffset :=
    addV (multiplyScalar (copy newVector3 tv) (Fin (-1.5)))
         (mkVector3 0%R 1%R 0%R) in

  cam <- the camera ;;
  pv <- read position_ ;;
  modify (set_camera
            (Some (set_position (addV (copy (position cam) pv) cameraOffset) cam))) ;;

  mx <- gets mouseX ;;
  let mouseOffsetX := ((mx - Fin 0.5) * Fin 20)%js in
  cam <- the camera ;;
  modify (set_camera
            (Some (set_position
                     (mkVector3 (x (position cam) + mouseOffsetX)%js
                                (y (position cam)) (z (position cam)))
                     cam))) ;;

  pv <- read position_ ;;
  update tangent (fun v => multiplyScalar v (Fin 5)) ;;
  tv <- read tangent ;;
  let lookAhead := addV (copy newVector3 pv) tv in
  cam <- the camera ;;
  modify (set_camera (Some (set_lookAtTarget (Some lookAhead) cam))).

Definition updateCarPosition : M unit :=
  cm <- gets carModel ;;
  match cm with
  | None => ret tt
  | Some _ =>
      p <- gets progress ;;
      position_ <- onCurve (getPointAt p) ;;
      p <- gets progress ;;
      tangent <- onCurve (getTangentAt p) ;;

      pv <- read position_ ;;
      car <- the carModel ;;
      modify (set_carModel (Some (set_position (copy (position car) pv) car))) ;;
      car <- the carModel ;;
      modify (set_carModel
                (Some (set_position
                         (mkVector3 (x (position car))
                                    (y (position car) + Fin 0.2)%js
                                    (z (position car)))
                         car))) ;;

      tv <- read tangent ;;
      let forward := normalize (clone tv) in

      let up := mkVector3 0%R 1%R 0%R in
      let right := normalize (crossVectors newVector3 up forward) in
      let carUp := normalize (crossVectors newVector3 forward right) in

      let matrix := makeBasis right carUp forward in
      car <- the carModel ;;
      modify (set_carModel (Some (set_rotation (Some matrix) car))) ;;
      car <- the carModel ;;
      modify (set_carModel (Some (rotateY 0%R car)))
  end.

Definition animate : M unit :=
  id <- requestAnimationFrame ;;
  modify (set_animationId id) ;;

  updateCameraPosition ;;
  updateCarPosition ;;

  mx <- gets mixer ;;
  match mx with
  | Some t => modify (set_mixer (Some (t + Fin 0.016)%js))
  | None => ret tt
  end ;;

  r <- the renderer ;;
  modify (set_renderer (Some (render r))).

Definition start : M unit := animate.

Definition dispose : M unit :=
  id <- gets animationId ;;
  (if Nat.eqb id 0 then ret tt
   else cancelAnimationFrame id ;; modify (set_animationId 0)) ;;

  gs <- gets geometries ;;
  modify (fun w => set_released (released w ++ map RGeometry gs) w) ;;
  modify (set_geometries []) ;;

  ms <- gets materials ;;
  modify (fun w => set_released (released w ++ map RMaterial ms) w) ;;
  modify (set_materials []) ;;

  r <- gets renderer ;;
  match r with
  | Some r => modify (set_renderer (Some (forceContextLoss (rendererDispose r))))
  | None => ret tt
  end ;;

  s <- gets scene ;;
  match s with
  | Some _ => modify (set_scene (Some []))
  | None => ret tt
  end.

(** The three.js geometry constructors sample the curve they are given;
    which calls they make is their business and is taken as a parameter. *)
Inductive CurveCall : Type :=
| CallGetPointAt (t : num)
| CallGetTangentAt (t : num).

Definition sampleCurve (calls : list CurveCall) : M unit :=
  forEach calls (fun c =>
    match c with
    | CallGetPointAt t => onCurve (getPointAt t) ;; ret tt
    | CallGetTangentAt t => onCurve (getTangentAt t) ;; ret tt
    end).

Definition sceneAdd (o : SceneChild) : M unit :=
  s <- the scene ;; modify (set_scene (Some (s ++ [o]))).

Definition pushGeometry (g : Geometry) : M unit :=
  modify (fun w => set_geometries (geometries w ++ [g]) w).

Definition pushMaterial (m : Material) : M unit :=
  modify (fun w => set_materials (materials w ++ [m]) w).

Definition createLighting : M unit :=
  sceneAdd HemisphereLight ;;
  sceneAdd AmbientLight ;;
  sceneAdd DirectionalLight.

Definition createTrack (sampling : Geometry -> list CurveCall) : M unit :=
  sampleCurve (sampling RollerCoasterGeometry) ;;
  pushGeometry RollerCoasterGeometry ;;
  pushMaterial TrackMaterial ;;
  sceneAdd (Mesh RollerCoasterGeometry TrackMaterial) ;;

  sampleCurve (sampling RollerCoasterLiftersGeometry) ;;
  pushGeometry RollerCoasterLiftersGeometry ;;
  pushMaterial LiftersMaterial ;;
  sceneAdd (Mesh RollerCoasterLiftersGeometry LiftersMaterial) ;;

  sampleCurve (sampling RollerCoasterShadowGeometry) ;;
  pushGeometry RollerCoasterShadowGeometry ;;
  pushMaterial ShadowMaterial ;;
  sceneAdd (Mesh RollerCoasterShadowGeometry ShadowMaterial).

Definition createGround : M unit :=
  pushGeometry PlaneGeometry ;;
  pushMaterial GroundMaterial ;;
  sceneAdd (Mesh PlaneGeometry GroundMaterial).

(** [loader.load('rb6.glb', onLoad, onProgress, onError)]: the callbacks
    are registered with the host. *)
Definition loadCarModel : M unit :=
  modify (set_loaderPending true).

Definition initialize (sampling : Geometry -> list CurveCall) : M unit :=
  modify (set_scene (Some [])) ;;
  modify (set_camera
            (Some (set_position (set (position newObject3D) 0%R 5%R 5%R)
                                newObject3D))) ;;
  modify (set_renderer (Some (mkRenderer false false 0))) ;;
  modify (set_curve (Some createParametricCurve)) ;;
  createLighting ;;
  createTrack sampling ;;
  createGround ;;
  loadCarModel.

(** The success callback given to the loader. *)
Definition onCarLoaded (gltfScene : Object3D) (hasAnimations : bool) : M unit :=
  modify (set_carModel (Some gltfScene)) ;;
  (if hasAnimations then modify (set_mixer (Some (Fin 0))) else ret tt) ;;
  car <- the carModel ;;
  let carScale : num := 0.05%R in
  modify (set_carModel
            (Some (set_scale (set (scale car) carScale carScale carScale) car))) ;;
  sceneAdd CarModel.

(** What the host can do to a running service. *)
Inductive Event : Type :=
| Frame                                        (* an animation frame is due *)
| MouseDrag (normalizedX : num)                (* the component calls [setMouseX] *)
| ModelLoaded (gltfScene : Object3D) (hasAnimations : bool)
| ModelError.

(** An animation frame: the requests pending at its start are run. *)
Definition runFrame : M unit :=
  ids <- gets rafPending ;;
  modify (set_rafPending []) ;;
  forEach ids (fun _ => animate).

Definition handle (e : Event) : M unit :=
  match e with
  | Frame => runFrame
  | MouseDrag v => setMouseX v
  | ModelLoaded o a =>
      pend <- gets loaderPending ;;
      if pend then modify (set_loaderPending false) ;; onCarLoaded o a
      else ret tt
  | ModelError =>
      modify (set_loaderPending false)
  end.

Definition run (events : list Event) : M unit := forEach events handle.

(** The states a service can be in once [initialize] and [start] have
    run. *)
Definition reachable (w : World) : Prop :=
  exists sampling events,
    exec (initialize sampling ;; start ;; run events) newAnimationService = Some w.

(** The frame callback [animate] invoked [n] times in a row. *)
Fixpoint frames (n : nat) : M unit :=
  match n with
  | O => ret tt
  | S n' => animate ;; frames n'
  end.


(* ================================================================== *)
(** * Predicates used in the statements *)
(* ================================================================== *)

(** A path whose coordinates are finite at every finite parameter. *)
Definition finitePath (f : num -> num * num * num) : Prop :=
  forall r : R,
    let '(x0, y0, z0) := f (Fin r) in finite x0 /\ finite y0 /\ finite z0.

(** The zero vector. *)
Definition zeroV : Vector3 := mkVector3 0%R 0%R 0%R.

(** A service whose camera, curve and renderer exist, on a finite path. *)
Definition ready (w : World) : Prop :=
  exists cam c r,
    camera w = Some cam /\ curve w = Some c /\ renderer w = Some r /\
    finitePath (xyz c).

(** The world [initialize] builds from [newAnimationService] when the
    geometry constructors leave the scratch vectors untouched. *)
Definition initializedWorld : World :=
  mkWorld
    (Some [HemisphereLight; AmbientLight; DirectionalLight;
           Mesh RollerCoasterGeometry TrackMaterial;
           Mesh RollerCoasterLiftersGeometry LiftersMaterial;
           Mesh RollerCoasterShadowGeometry ShadowMaterial;
           Mesh PlaneGeometry GroundMaterial])
    (Some (mkObject3D (mkVector3 0%R 5%R 5%R) (mkVector3 1%R 1%R 1%R) None None))
    (Some (mkRenderer false false 0))
    0 0%R CONFIG.INITIAL_VELOCITY
    (Some createParametricCurve)
    None None 0%R
    [RollerCoasterGeometry; RollerCoasterLiftersGeometry;
     RollerCoasterShadowGeometry; PlaneGeometry]
    [TrackMaterial; LiftersMaterial; ShadowMaterial; GroundMaterial]
    [] 1 true [].

(** The coordinates of the source's path at a real parameter, scaled. *)
Definition pathX (r : R) : R :=
  (sin (r * (PI * 2) * 2) * cos (r * (PI * 2) * 3) * 60 * 2.5)%R.
Definition pathY (r : R) : R :=
  ((sin (r * (PI * 2) * 4) * 8 + cos (r * (PI * 2) * 8) * 4 + 15) * 2.5)%R.
Definition pathZ (r : R) : R :=
  (sin (r * (PI * 2) * 1.5) * cos (r * (PI * 2) * 2) * 60 * 2.5)%R.

Definition theGeometries : list Geometry :=
  [RollerCoasterGeometry; RollerCoasterLiftersGeometry;
   RollerCoasterShadowGeometry; PlaneGeometry].

Definition theMaterials : list Material :=
  [TrackMaterial; LiftersMaterial; ShadowMaterial; GroundMaterial].

(** What holds of the service between two events once [initialize] and
    [start] have run: the objects exist, the curve is the source's, and
    exactly one animation frame is requested, under the handle stored in
    [animationId]. *)
Definition live (w : World) : Prop :=
  (exists cam, camera w = Some cam) /\
  (exists c, curve w = Some c /\ xyz c = rollerCoasterXYZ) /\
  (exists r, renderer w = Some r) /\
  (exists s, scene w = Some s) /\
  animationId w <> 0 /\
  rafPending w = [animationId w] /\
  rafNext w <> 0 /\
  geometries w = theGeometries /\
  materials w = theMaterials /\
  released w = [].

(** What holds after [dispose]: no animation frame is requested. *)
Definition stopped (w : World) : Prop :=
  (exists s, scene w = Some s) /\ rafPending w = [].

(** A synthetic path that stays at the origin: every finite difference
    vanishes, so the sampled tangent is the zero vector at every frame. *)
Definition stillXYZ (_ : num) : num * num * num := (Fin 0, Fin 0, Fin 0).

(** An initialised service on that path, with the vehicle loaded. *)
Definition stillWorld : World :=
  set_carModel (Some newObject3D)
    (set_curve (Some (mkCurve stillXYZ newVector3 newVector3)) initializedWorld).

(* ================================================================== *)
(** * Proof automation *)
(* ================================================================== *)

(** Runs the monadic glue and the field accesses of a method body. *)
Ltac run_monad :=
  cbv beta iota zeta delta
    [bind ret gets modify the onCurve read update
     set_scene set_camera set_renderer set_animationId set_progress
     set_velocity set_curve set_carModel set_mixer set_mouseX set_geometries
     set_materials set_rafPending set_rafNext set_loaderPending set_released
     scene camera renderer animationId progress velocity curve carModel mixer
     mouseX geometries materials rafPending rafNext loaderPending released
     set_position set_scale set_lookAtTarget set_rotation
     position scale lookAtTarget rotation
     set_vector set_vector2 xyz vector vector2 deref].

(** Reduces field accesses on explicit worlds. *)
Ltac world_fields :=
  cbn [scene camera renderer animationId progress velocity curve carModel mixer
       mouseX geometries materials rafPending rafNext loaderPending released].

(* ================================================================== *)
(** * Further notions used in statements about the service *)
(* ================================================================== *)

(** [Vector3.dot] *)
Definition dot (u v : Vector3) : num :=
  (x u * x v + y u * y v + z u * z v)%js.


(** A basis matrix whose three axes have length 1, are pairwise
    orthogonal, and are right-handed (x cross y = z). *)
Definition orthonormal (m : Matrix4) : Prop :=
  length (xAxis m) = Fin 1 /\ length (yAxis m) = Fin 1 /\
  length (zAxis m) = Fin 1 /\
  dot (xAxis m) (yAxis m) = Fin 0 /\ dot (xAxis m) (zAxis m) = Fin 0 /\
  dot (yAxis m) (zAxis m) = Fin 0 /\
  crossVectors newVector3 (xAxis m) (yAxis m) = zAxis m.

(** The number of animation frames among the events. *)
Fixpoint frameCount (events : list Event) : nat :=
  match events with
  | [] => 0
  | Frame :: l => S (frameCount l)
  | _ :: l => frameCount l
  end.

(** A live service that has drawn [k] frames. *)
Definition drawn (k : nat) (w : World) : Prop :=
  live w /\
  animationId w = k /\ rafNext w = S k /\
  exists r, renderer w = Some r /\ framesRendered r = k /\
            disposed r = false /\ contextLost r = false.

(** Events that are no signal of the model loader. *)
Definition noLoaderEvent (e : Event) : Prop :=
  match e with
  | ModelLoaded _ _ | ModelError => False
  | _ => True
  end.

(** A live service still waiting for its model. *)
Definition waiting (w : World) : Prop :=
  live w /\ carModel w = None /\ mixer w = None /\ loaderPending w = true.

(** A live service whose model failed to load. *)
Definition carless (w : World) : Prop :=
  live w /\ carModel w = None /\ mixer w = None /\ loaderPending w = false.

(* ================================================================== *)
(** * The page: window, component and service (animation.ts)

    The [Animation] component wires the service to the window.  The page
    holds the service and its host (a [World]), what [initialize] and
    [onResize] write into the camera projection and the renderer's drawing
    buffer (a [View], absent until [initialize]), the window's size, pixel
    ratio and listeners, and the component's fields.  A closure created by
    [ngOnInit] is identified by the number it was allocated under; a
    listener is an event type with a closure. *)
(* ================================================================== *)

Inductive EventType : Type := EvResize | EvMouseMove | EvMouseDown | EvMouseUp.

Definition EventType_eqb (a b : EventType) : bool :=
  match a, b with
  | EvResize, EvResize | EvMouseMove, EvMouseMove
  | EvMouseDown, EvMouseDown | EvMouseUp, EvMouseUp => true
  | _, _ => false
  end.

Record View : Type := mkView {
  aspect : num;            (* camera.aspect *)
  width : num;             (* renderer.setSize(width, height) *)
  height : num;
  pixelRatio : num         (* renderer.setPixelRatio *)
}.

Record Page : Type := mkPage {
  world : World;
  view : option View;
  innerWidth : num;
  innerHeight : num;
  devicePixelRatio : num;
  listeners : list (EventType * nat);
  nextClosure : nat;
  consoleErrors : nat;
  nativeElement : bool;              (* canvasRef.nativeElement is there *)
  resizeHandler : option nat;
  mouseMoveHandler : option nat;
  mouseDownHandler : option nat;
  mouseUpHandler : option nat;
  isDragging : bool
}.

Definition set_world v p :=
  mkPage v (view p) (innerWidth p) (innerHeight p) (devicePixelRatio p)
         (listeners p) (nextClosure p) (consoleErrors p) (nativeElement p)
         (resizeHandler p) (mouseMoveHandler p) (mouseDownHandler p)
         (mouseUpHandler p) (isDragging p).

Definition set_view v p :=
  mkPage (world p) v (innerWidth p) (innerHeight p) (devicePixelRatio p)
         (listeners p) (nextClosure p) (consoleErrors p) (nativeElement p)
         (resizeHandler p) (mouseMoveHandler p) (mouseDownHandler p)
         (mouseUpHandler p) (isDragging p).

Definition set_windowSize (w h : num) p :=
  mkPage (world p) (view p) w h (devicePixelRatio p)
         (listeners p) (nextClosure p) (consoleErrors p) (nativeElement p)
         (resizeHandler p) (mouseMoveHandler p) (mouseDownHandler p)
         (mouseUpHandler p) (isDragging p).

Definition set_listeners v p :=
  mkPage (world p) (view p) (innerWidth p) (innerHeight p) (devicePixelRatio p)
         v (nextClosure p) (consoleErrors p) (nativeElement p)
         (resizeHandler p) (mouseMoveHandler p) (mouseDownHandler p)
         (mouseUpHandler p) (isDragging p).

Definition set_nextClosure v p :=
  mkPage (world p) (view p) (innerWidth p) (innerHeight p) (devicePixelRatio p)
         (listeners p) v (consoleErrors p) (nativeElement p)
         (resizeHandler p) (mouseMoveHandler p) (mouseDownHandler p)
         (mouseUpHandler p) (isDragging p).

Definition set_consoleErrors v p :=
  mkPage (world p) (view p) (innerWidth p) (innerHeight p) (devicePixelRatio p)
         (listeners p) (nextClosure p) v (nativeElement p)
         (resizeHandler p) (mouseMoveHandler p) (mouseDownHandler p)
         (mouseUpHandler p) (isDragging p).

Definition set_resizeHandler v p :=
  mkPage (world p) (view p) (innerWidth p) (innerHeight p) (devicePixelRatio p)
         (listeners p) (nextClosure p) (consoleErrors p) (nativeElement p)
         v (mouseMoveHandler p) (mouseDownHandler p)
         (mouseUpHandler p) (isDragging p).

Definition set_mouseMoveHandler v p :=
  mkPage (world p) (view p) (innerWidth p) (innerHeight p) (devicePixelRatio p)
         (listeners p) (nextClosure p) (consoleErrors p) (nativeElement p)
         (resizeHandler p) v (mouseDownHandler p)
         (mouseUpHandler p) (isDragging p).

Definition set_mouseDownHandler v p :=
  mkPage (world p) (view p) (innerWidth p) (innerHeight p) (devicePixelRatio p)
         (listeners p) (nextClosure p) (consoleErrors p) (nativeElement p)
         (resizeHandler p) (mouseMoveHandler p) v
         (mouseUpHandler p) (isDragging p).

Definition set_mouseUpHandler v p :=
  mkPage (world p) (view p) (innerWidth p) (innerHeight p) (devicePixelRatio p)
         (listeners p) (nextClosure p) (consoleErrors p) (nativeElement p)
         (resizeHandler p) (mouseMoveHandler p) (mouseDownHandler p)
         v (isDragging p).

Definition set_isDragging v p :=
  mkPage (world p) (view p) (innerWidth p) (innerHeight p) (devicePixelRatio p)
         (listeners p) (nextClosure p) (consoleErrors p) (nativeElement p)
         (resizeHandler p) (mouseMoveHandler p) (mouseDownHandler p)
         (mouseUpHandler p) v.

(** Methods of the page: completion with a value and a new page, or a
    thrown TypeError. *)
Inductive Result (A : Type) : Type :=
| Done (a : A) (p : Page)
| Thrown.
Arguments Done {A} a p.
Arguments Thrown {A}.

Definition PM (A : Type) : Type := Page -> Result A.

Definition pret {A} (a : A) : PM A := fun p => Done a p.

Definition pbind {A B} (m : PM A) (k : A -> PM B) : PM B :=
  fun p => match m p with
           | Done a p' => k a p'
           | Thrown => Thrown
           end.

Definition pgets {A} (f : Page -> A) : PM A := fun p => Done (f p) p.

Definition pmodify (f : Page -> Page) : PM unit := fun p => Done tt (f p).

(** A call of a service method from the page. *)
Definition liftW {A} (m : M A) : PM A :=
  fun p => match m (world p) with
           | Ok a w => Done a (set_world w p)
           | TypeError => Thrown
           end.

Declare Scope page_scope.
Delimit Scope page_scope with page.
Notation "x <- m ;; k" := (pbind m (fun x => k))
  (at level 61, m at next level, right associativity) : page_scope.
Notation "m ;; k" := (pbind m (fun _ => k))
  (at level 61, right associativity) : page_scope.

Section PageModel.
Local Open Scope page_scope.

Fixpoint pforEach {A} (l : list A) (f : A -> PM unit) : PM unit :=
  match l with
  | [] => pret tt
  | a :: l' => f a ;; pforEach l' f
  end.

Definition sameListener (t : EventType) (h : nat) (e : EventType * nat) : bool :=
  EventType_eqb t (fst e) && Nat.eqb h (snd e).

(** [window.addEventListener]: a listener already registered is not added
    again. *)
Definition addEventListener (t : EventType) (h : nat) : PM unit :=
  pmodify (fun p =>
    if existsb (sameListener t h) (listeners p) then p
    else set_listeners (listeners p ++ [(t, h)]) p).

Definition removeEventListener (t : EventType) (h : nat) : PM unit :=
  pmodify (fun p =>
    set_listeners (filter (fun e => negb (sameListener t h e)) (listeners p)) p).

(** A new closure. *)
Definition newClosure : PM nat :=
  n <- pgets nextClosure ;;
  pmodify (set_nextClosure (S n)) ;;
  pret n.

(** The part of [AnimationService.initialize] that reads the window: the
    camera is built with aspect innerWidth / innerHeight, the renderer is
    sized to the window and given the pixel ratio
    min(devicePixelRatio, 2).  The rest is [initialize]. *)
Definition initializeOnPage (sampling : Geometry -> list CurveCall) : PM unit :=
  w <- pgets innerWidth ;;
  h <- pgets innerHeight ;;
  dpr <- pgets devicePixelRatio ;;
  pmodify (set_view (Some (mkView (w / h)%js w h (Math_min dpr (Fin 2))))) ;;
  liftW (initialize sampling).

(** [AnimationService.onResize] *)
Definition onResize : PM unit :=
  cam <- pgets (fun p => camera (world p)) ;;
  rd <- pgets (fun p => renderer (world p)) ;;
  match cam, rd with
  | Some _, Some _ =>
      w <- pgets innerWidth ;;
      h <- pgets innerHeight ;;
      dpr <- pgets devicePixelRatio ;;
      pmodify (set_view (Some (mkView (w / h)%js w h (Math_min dpr (Fin 2)))))
  | _, _ => pret tt
  end.

(** The four closures of [ngOnInit], by the event type they are
    registered for; [clientX] is the field of the mouse event. *)
Definition handler (t : EventType) (clientX : num) : PM unit :=
  match t with
  | EvResize => onResize
  | EvMouseMove =>
      d <- pgets isDragging ;;
      if d then
        w <- pgets innerWidth ;;
        liftW (setMouseX (clientX / w)%js)
      else pret tt
  | EvMouseDown => pmodify (set_isDragging true)
  | EvMouseUp => pmodify (set_isDragging false)
  end.

Definition ngOnInit (sampling : Geometry -> list CurveCall) : PM unit :=
  canvas <- pgets nativeElement ;;
  if negb canvas then
    pmodify (fun p => set_consoleErrors (S (consoleErrors p)) p)
  else
    initializeOnPage sampling ;;
    liftW start ;;

    h <- newClosure ;;
    pmodify (set_resizeHandler (Some h)) ;;
    addEventListener EvResize h ;;

    h <- newClosure ;;
    pmodify (set_mouseMoveHandler (Some h)) ;;
    addEventListener EvMouseMove h ;;

    h <- newClosure ;;
    pmodify (set_mouseDownHandler (Some h)) ;;
    addEventListener EvMouseDown h ;;

    h <- newClosure ;;
    pmodify (set_mouseUpHandler (Some h)) ;;
    addEventListener EvMouseUp h.

Definition ngOnDestroy : PM unit :=
  h <- pgets resizeHandler ;;
  match h with
  | Some h => removeEventListener EvResize h ;; pmodify (set_resizeHandler None)
  | None => pret tt
  end ;;

  h <- pgets mouseMoveHandler ;;
  match h with
  | Some h => removeEventListener EvMouseMove h ;;
              pmodify (set_mouseMoveHandler None)
  | None => pret tt
  end ;;

  h <- pgets mouseDownHandler ;;
  match h with
  | Some h => removeEventListener EvMouseDown h ;;
              pmodify (set_mouseDownHandler None)
  | None => pret tt
  end ;;

  h <- pgets mouseUpHandler ;;
  match h with
  | Some h => removeEventListener EvMouseUp h ;;
              pmodify (set_mouseUpHandler None)
  | None => pret tt
  end ;;

  liftW dispose.

(** The window delivers an event to the listeners of its type, in the
    order they were added. *)
Definition dispatch (t : EventType) (clientX : num) : PM unit :=
  ls <- pgets listeners ;;
  pforEach (filter (fun e => EventType_eqb t (fst e)) ls)
           (fun _ => handler t clientX).

(** What can happen to the page. *)
Inductive PageEvent : Type :=
| Resized (w h : num)              (* the window takes a new size *)
| MouseMoved (clientX : num)
| MousePressed
| MouseReleased
| AnimationFrame
| ModelDelivered (gltfScene : Object3D) (hasAnimations : bool)
| ModelFailed.

Definition pageStep (e : PageEvent) : PM unit :=
  match e with
  | Resized w h => pmodify (set_windowSize w h) ;; dispatch EvResize (Fin 0)
  | MouseMoved cx => dispatch EvMouseMove cx
  | MousePressed => dispatch EvMouseDown (Fin 0)
  | MouseReleased => dispatch EvMouseUp (Fin 0)
  | AnimationFrame => liftW (handle Frame)
  | ModelDelivered o a => liftW (handle (ModelLoaded o a))
  | ModelFailed => liftW (handle ModelError)
  end.

Definition pageRun (events : list PageEvent) : PM unit :=
  pforEach events pageStep.

End PageModel.

(** A page in which nothing has run yet. *)
Definition freshPage (w h dpr : num) (canvas : bool) : Page :=
  mkPage newAnimationService None w h dpr [] 0 0 canvas None None None None false.

(** The component is mounted: its four closures are the window's
    listeners and the service is live. *)
Definition mounted (p : Page) : Prop :=
  live (world p) /\
  exists a b c d,
    listeners p = [(EvResize, a); (EvMouseMove, b); (EvMouseDown, c); (EvMouseUp, d)] /\
    resizeHandler p = Some a /\ mouseMoveHandler p = Some b /\
    mouseDownHandler p = Some c /\ mouseUpHandler p = Some d.

Ltac run_page :=
  cbv beta iota zeta delta
    [pbind pret pgets pmodify liftW
     set_world set_view set_windowSize set_listeners set_nextClosure
     set_consoleErrors set_resizeHandler set_mouseMoveHandler
     set_mouseDownHandler set_mouseUpHandler set_isDragging
     world view innerWidth innerHeight devicePixelRatio listeners nextClosure
     consoleErrors nativeElement resizeHandler mouseMoveHandler
     mouseDownHandler mouseUpHandler isDragging].

(** The page after [ngOnDestroy]: no listener is left and no animation
    frame is requested. *)
Definition unmounted (p : Page) : Prop :=
  listeners p = [] /\ stopped (world p).

(** A page whose component found no canvas: the service was never
    touched. *)
Definition idle (p : Page) : Prop :=
  world p = newAnimationService /\ listeners p = [] /\ view p = None /\
  resizeHandler p = None /\ mouseMoveHandler p = None /\
  mouseDownHandler p = None /\ mouseUpHandler p = None.

(* ================================================================== *)
(** * Arithmetic on finite numbers *)
(* ================================================================== *)

Section Numbers.
Local Open Scope R_scope.

Lemma finite_inv (a : num) : finite a -> exists r, a = Fin r.
Proof. destruct a; simpl; intros H; try contradiction. eauto. Qed.

Lemma rem_one_nonneg (r : R) :
  0 <= r -> exists q, (Fin r mod Fin 1)%js = Fin q /\ 0 <= q < 1.
Proof.
  intros Hr. unfold rem.
  destruct (Req_dec_T 1 0) as [H|_]; [lra|].
  replace (r / 1) with r by field.
  unfold Rtrunc. destruct (Rle_dec 0 r) as [_|H]; [|contradiction].
  exists (frac_part r). split.
  - f_equal. unfold frac_part. ring.
  - destruct (base_fp r). lra.
Qed.

Lemma rem_one_small (r : R) : 0 <= r < 1 -> (Fin r mod Fin 1)%js = Fin r.
Proof.
  intros Hr. unfold rem.
  destruct (Req_dec_T 1 0) as [H|_]; [lra|].
  replace (r / 1) with r by field.
  unfold Rtrunc. destruct (Rle_dec 0 r) as [_|H]; [|lra].
  destruct (Int_part_frac_part_spec r 0 r Hr) as [<- _]; [simpl; ring|].
  f_equal. simpl. ring.
Qed.

Lemma clamp_finite (lo hi r : R) :
  lo <= hi ->
  exists q, Math_max (Fin lo) (Math_min (Fin hi) (Fin r)) = Fin q /\ lo <= q <= hi.
Proof.
  intros H. simpl. eexists; split; [reflexivity|].
  unfold Rmax, Rmin.
  destruct (Rle_dec hi r); destruct (Rle_dec lo _); lra.
Qed.

Lemma sqrt_finite (r : R) : 0 <= r -> Math_sqrt (Fin r) = Fin (sqrt r).
Proof.
  intros H. simpl. destruct (Rlt_dec r 0); [lra|reflexivity].
Qed.

Lemma div_one_finite (r : R) : r <> 0 -> (Fin 1 / Fin r)%js = Fin (1 / r).
Proof.
  intros H. simpl. destruct (Req_dec_T r 0); [contradiction|reflexivity].
Qed.

End Numbers.

(* ================================================================== *)
(** * Vector3 on finite components *)
(* ================================================================== *)

Section Vectors.
Local Open Scope R_scope.

Lemma finiteV_inv (v : Vector3) :
  finiteV v -> exists a b c, v = mkVector3 (Fin a) (Fin b) (Fin c).
Proof.
  destruct v as [a b c]. intros (Ha & Hb & Hc). simpl in *.
  apply finite_inv in Ha, Hb, Hc.
  destruct Ha as [a' ->], Hb as [b' ->], Hc as [c' ->]. eauto.
Qed.

Lemma sumsq_nonneg (a b c : R) : 0 <= a * a + b * b + c * c.
Proof. nra. Qed.

Lemma sumsq_zero (a b c : R) :
  a * a + b * b + c * c = 0 -> a = 0 /\ b = 0 /\ c = 0.
Proof. intros H. repeat split; nra. Qed.

Lemma length_Fin (a b c : R) :
  length (mkVector3 (Fin a) (Fin b) (Fin c)) = Fin (sqrt (a * a + b * b + c * c)).
Proof.
  unfold length. cbn [x y z mul add]. apply sqrt_finite, sumsq_nonneg.
Qed.

(** [normalize] scales by a positive factor: the inverse of the length,
    or 1 when the length is 0 (the [|| 1] of three.js). *)
Lemma normalize_Fin (a b c : R) :
  exists k,
    0 < k /\
    normalize (mkVector3 (Fin a) (Fin b) (Fin c))
    = mkVector3 (Fin (a * k)) (Fin (b * k)) (Fin (c * k)) /\
    (a * a + b * b + c * c = 0 -> k = 1) /\
    (a * a + b * b + c * c <> 0 -> k * sqrt (a * a + b * b + c * c) = 1).
Proof.
  unfold normalize, divideScalar. rewrite length_Fin.
  set (S := a * a + b * b + c * c).
  assert (HS : 0 <= S) by apply sumsq_nonneg.
  unfold lor, truthy.
  destruct (Req_dec_T (sqrt S) 0) as [H0|Hn0].
  - exists (1 / 1). rewrite div_one_finite by lra.
    repeat split; try reflexivity; try lra.
    intros HS0. exfalso. apply HS0. now apply sqrt_eq_0.
  - exists (1 / sqrt S). rewrite div_one_finite by assumption.
    assert (0 < sqrt S).
    { destruct (sqrt_pos S) as [Hp|He]; [assumption|]. congruence. }
    repeat split; try reflexivity.
    + apply Rdiv_lt_0_compat; lra.
    + intros E. rewrite E, sqrt_0 in Hn0. contradiction.
    + intros _. field. assumption.
Qed.

Lemma normalize_finiteV (v : Vector3) : finiteV v -> finiteV (normalize v).
Proof.
  intros Hv. apply finiteV_inv in Hv. destruct Hv as (a & b & c & ->).
  destruct (normalize_Fin a b c) as (k & _ & -> & _). repeat split.
Qed.

Lemma normalize_zero : normalize zeroV = zeroV.
Proof.
  unfold zeroV. destruct (normalize_Fin 0 0 0) as (k & _ & -> & _).
  f_equal; f_equal; ring.
Qed.

Lemma normalize_unit (a b c : R) :
  a * a + b * b + c * c <> 0 ->
  length (normalize (mkVector3 (Fin a) (Fin b) (Fin c))) = Fin 1.
Proof.
  intros HS.
  destruct (normalize_Fin a b c) as (k & Hk & -> & _ & Hu).
  specialize (Hu HS). rewrite length_Fin. f_equal.
  replace (a * k * (a * k) + b * k * (b * k) + c * k * (c * k))
    with (k * k * (a * a + b * b + c * c)) by ring.
  rewrite sqrt_mult_alt by nra.
  rewrite sqrt_square by lra. exact Hu.
Qed.

Lemma crossVectors_finiteV (o u v : Vector3) :
  finiteV u -> finiteV v -> finiteV (crossVectors o u v).
Proof.
  intros Hu Hv. apply finiteV_inv in Hu, Hv.
  destruct Hu as (a & b & c & ->), Hv as (a' & b' & c' & ->). repeat split.
Qed.

Lemma addV_finiteV (u v : Vector3) : finiteV u -> finiteV v -> finiteV (addV u v).
Proof.
  intros Hu Hv. apply finiteV_inv in Hu, Hv.
  destruct Hu as (a & b & c & ->), Hv as (a' & b' & c' & ->). repeat split.
Qed.

Lemma subV_finiteV (u v : Vector3) : finiteV u -> finiteV v -> finiteV (subV u v).
Proof.
  intros Hu Hv. apply finiteV_inv in Hu, Hv.
  destruct Hu as (a & b & c & ->), Hv as (a' & b' & c' & ->). repeat split.
Qed.

Lemma multiplyScalar_finiteV (v : Vector3) (r : R) :
  finiteV v -> finiteV (multiplyScalar v (Fin r)).
Proof.
  intros Hv. apply finiteV_inv in Hv.
  destruct Hv as (a & b & c & ->). repeat split.
Qed.

Lemma copy_finiteV (o v : Vector3) : finiteV v -> finiteV (copy o v).
Proof. intros (? & ? & ?). repeat split; assumption. Qed.

End Vectors.

(* ================================================================== *)
(** * The path generator: what the two methods leave in the closure *)
(* ================================================================== *)

Lemma getPointAt_eq (t : num) (c : ParametricCurve) :
  getPointAt t c = (Ref_vector, mkCurve (xyz c) (positionAt (xyz c) t) (vector2 c)).
Proof.
  unfold getPointAt, positionAt.
  destruct (xyz c t) as [[x0 y0] z0]. reflexivity.
Qed.

Lemma getTangentAt_eq (t : num) (c : ParametricCurve) :
  getTangentAt t c =
  (Ref_vector2,
   mkCurve (xyz c)
           (positionAt (xyz c) (Math_max 0%R (t - Fin 0.0001)%js))
           (tangentAt (xyz c) t)).
Proof.
  unfold getTangentAt. rewrite !getPointAt_eq.
  cbn [xyz vector vector2 deref set_vector2 copy].
  unfold tangentAt, subV. cbn [x y z]. reflexivity.
Qed.

Lemma updateCameraPosition_eq (w : World) (cam : Object3D) (c : ParametricCurve) :
  camera w = Some cam -> curve w = Some c ->
  let p' := ((progress w + velocity w) mod Fin 1)%js in
  let P := positionAt (xyz c) (Math_max 0%R (p' - Fin 0.0001)%js) in
  let T := tangentAt (xyz c) p' in
  let v' := Math_max CONFIG.MIN_VELOCITY
              (Math_min CONFIG.MAX_VELOCITY
                 ((velocity w
                   + (- y T) * CONFIG.GRAVITY_FACTOR * CONFIG.FIXED_DELTA_TIME)
                  * CONFIG.VELOCITY_DAMPING)%js) in
  let cp := addV (copy (position cam) P)
                 (addV (multiplyScalar (copy newVector3 T) (Fin (-1.5)))
                       (mkVector3 0%R 1%R 0%R)) in
  let cp' := mkVector3 (x cp + (mouseX w - Fin 0.5) * Fin 20)%js (y cp) (z cp) in
  let T5 := multiplyScalar T (Fin 5) in
  updateCameraPosition w =
  Ok tt (mkWorld (scene w)
                 (Some (mkObject3D cp' (scale cam)
                                   (Some (addV (copy newVector3 P) T5))
                                   (rotation cam)))
                 (renderer w) (animationId w) p' v'
                 (Some (mkCurve (xyz c) P T5))
                 (carModel w) (mixer w) (mouseX w) (geometries w) (materials w)
                 (rafPending w) (rafNext w) (loaderPending w) (released w)).
Proof.
  destruct w; cbn [camera curve progress velocity mouseX scene renderer animationId
                   carModel mixer geometries materials rafPending rafNext
                   loaderPending released].
  intros -> ->. intros.
  unfold updateCameraPosition. run_monad.
  rewrite getPointAt_eq. run_monad. rewrite getTangentAt_eq. run_monad.
  reflexivity.
Qed.

Lemma positionAt_finiteV (f : num -> num * num * num) (r : R) :
  finitePath f -> finiteV (positionAt f (Fin r)).
Proof.
  intros Hf. specialize (Hf r). unfold positionAt.
  destruct (f (Fin r)) as [[x0 y0] z0]. destruct Hf as (Hx & Hy & Hz).
  apply finite_inv in Hx, Hy, Hz.
  destruct Hx as [a ->], Hy as [b ->], Hz as [c ->]. repeat split.
Qed.

Lemma tangentAt_finiteV (f : num -> num * num * num) (r : R) :
  finitePath f -> finiteV (tangentAt f (Fin r)).
Proof.
  intros Hf. unfold tangentAt.
  apply normalize_finiteV, subV_finiteV; apply positionAt_finiteV; assumption.
Qed.

Lemma rotateY_zero (o : Object3D) (m : Matrix4) :
  rotation o = Some m -> finiteM m -> rotateY (Fin 0) o = o.
Proof.
  intros Hr (Hx & Hy & Hz). unfold rotateY. rewrite Hr.
  destruct o as [p s l r]; simpl in Hr; subst r.
  destruct m as [mx my mz]; cbn [xAxis yAxis zAxis] in *.
  apply finiteV_inv in Hx, Hz.
  destruct Hx as (a & b & c & ->), Hz as (a' & b' & c' & ->).
  unfold set_rotation; cbn [position scale lookAtTarget].
  f_equal. f_equal.
  unfold subV, addV, multiplyScalar, Math_cos, Math_sin; cbn [x y z mul sub add neg].
  rewrite cos_0, sin_0.
  f_equal; f_equal; f_equal; ring.
Qed.

Lemma updateCarPosition_absent (w : World) :
  carModel w = None -> updateCarPosition w = Ok tt w.
Proof.
  intros H. unfold updateCarPosition, bind, gets. rewrite H. reflexivity.
Qed.

Lemma updateCarPosition_eq (w : World) (car : Object3D) (c : ParametricCurve) :
  carModel w = Some car -> curve w = Some c ->
  let P := positionAt (xyz c) (Math_max 0%R (progress w - Fin 0.0001)%js) in
  let T := tangentAt (xyz c) (progress w) in
  let Pc := copy (position car) P in
  let forward := normalize (clone T) in
  let right := normalize (crossVectors newVector3 (mkVector3 0%R 1%R 0%R) forward) in
  let carUp := normalize (crossVectors newVector3 forward right) in
  updateCarPosition w =
  Ok tt (mkWorld (scene w) (camera w) (renderer w) (animationId w)
                 (progress w) (velocity w)
                 (Some (mkCurve (xyz c) P T))
                 (Some (rotateY 0%R
                          (mkObject3D
                             (mkVector3 (x Pc) (y Pc + Fin 0.2)%js (z Pc))
                             (scale car) (lookAtTarget car)
                             (Some (makeBasis right carUp forward)))))
                 (mixer w) (mouseX w) (geometries w) (materials w)
                 (rafPending w) (rafNext w) (loaderPending w) (released w)).
Proof.
  destruct w; cbn [camera curve progress velocity mouseX scene renderer animationId
                   carModel mixer geometries materials rafPending rafNext
                   loaderPending released].
  intros -> ->. intros.
  unfold updateCarPosition. run_monad.
  rewrite getPointAt_eq. run_monad. rewrite getTangentAt_eq. run_monad.
  reflexivity.
Qed.

(* ================================================================== *)
(** * One frame *)
(* ================================================================== *)

(** What [animate] does to a service whose camera, curve and renderer
    exist.  [p'] is the new progress, [P] the position the scratch vector
    holds when it is read back, [T] the sampled tangent. *)
Lemma animate_eq (w : World) (cam : Object3D) (c : ParametricCurve)
      (r : WebGLRenderer) :
  camera w = Some cam -> curve w = Some c -> renderer w = Some r ->
  let p' := ((progress w + velocity w) mod Fin 1)%js in
  let P := positionAt (xyz c) (Math_max 0%R (p' - Fin 0.0001)%js) in
  let T := tangentAt (xyz c) p' in
  let v' := Math_max CONFIG.MIN_VELOCITY
              (Math_min CONFIG.MAX_VELOCITY
                 ((velocity w
                   + (- y T) * CONFIG.GRAVITY_FACTOR * CONFIG.FIXED_DELTA_TIME)
                  * CONFIG.VELOCITY_DAMPING)%js) in
  let cp := addV (copy (position cam) P)
                 (addV (multiplyScalar (copy newVector3 T) (Fin (-1.5)))
                       (mkVector3 0%R 1%R 0%R)) in
  let cp' := mkVector3 (x cp + (mouseX w - Fin 0.5) * Fin 20)%js (y cp) (z cp) in
  let T5 := multiplyScalar T (Fin 5) in
  let forward := normalize (clone T) in
  let right := normalize (crossVectors newVector3 (mkVector3 0%R 1%R 0%R) forward) in
  let carUp := normalize (crossVectors newVector3 forward right) in
  exists w',
    animate w = Ok tt w' /\
    progress w' = p' /\ velocity w' = v' /\
    camera w' = Some (mkObject3D cp' (scale cam)
                                 (Some (addV (copy newVector3 P) T5))
                                 (rotation cam)) /\
    (exists c', curve w' = Some c' /\ xyz c' = xyz c) /\
    renderer w' = Some (render r) /\
    carModel w' =
      match carModel w with
      | None => None
      | Some car =>
          Some (rotateY 0%R
                  (mkObject3D
                     (mkVector3 (x P) (y P + Fin 0.2)%js (z P))
                     (scale car) (lookAtTarget car)
                     (Some (makeBasis right carUp forward))))
      end /\
    mixer w' = match mixer w with
               | Some t => Some (t + Fin 0.016)%js
               | None => None
               end /\
    mouseX w' = mouseX w /\
    animationId w' = rafNext w /\
    rafPending w' = (rafPending w ++ [rafNext w])%list /\
    rafNext w' = S (rafNext w) /\
    scene w' = scene w /\ geometries w' = geometries w /\
    materials w' = materials w /\ loaderPending w' = loaderPending w /\
    released w' = released w.
Proof.
  destruct w; world_fields. intros -> -> ->. intros.
  unfold animate, requestAnimationFrame. run_monad.
  match goal with
  | |- context [updateCameraPosition ?w0] =>
      pose proof (updateCameraPosition_eq w0 cam c eq_refl eq_refl) as E;
      cbv zeta in E; world_fields; rewrite E; clear E
  end.
  world_fields.
  destruct carModel0 as [car|].
  - match goal with
    | |- context [updateCarPosition ?w0] =>
        pose proof (updateCarPosition_eq w0 car _ eq_refl eq_refl) as E;
        cbv zeta in E; world_fields; cbn [xyz] in E; rewrite E; clear E
    end.
    world_fields.
    destruct mixer0; run_monad; eexists; (split; [reflexivity|]); world_fields;
      repeat split; eauto.
  - rewrite updateCarPosition_absent by reflexivity.
    destruct mixer0; run_monad; eexists; (split; [reflexivity|]); world_fields;
      repeat split; eauto.
Qed.

(* ================================================================== *)
(** * The source's path *)
(* ================================================================== *)

Section RollerCoaster.
Local Open Scope R_scope.

Lemma positionAt_rollerCoaster (r : R) :
  positionAt rollerCoasterXYZ (Fin r) =
  mkVector3 (Fin (pathX r)) (Fin (pathY r)) (Fin (pathZ r)).
Proof. reflexivity. Qed.

(** The tangent is the finite difference scaled by a positive factor. *)
Lemma tangentAt_rollerCoaster (r : R) :
  let t2 := Rmin 1 (r + 0.0001) in
  let t1 := Rmax 0 (r - 0.0001) in
  exists k,
    0 < k /\
    tangentAt rollerCoasterXYZ (Fin r) =
    mkVector3 (Fin ((pathX t2 + - pathX t1) * k))
              (Fin ((pathY t2 + - pathY t1) * k))
              (Fin ((pathZ t2 + - pathZ t1) * k)).
Proof.
  intros t2 t1. unfold tangentAt.
  change (Math_min 1 (Fin r + Fin 0.0001)%js) with (Fin t2).
  change (Math_max 0 (Fin r - Fin 0.0001)%js) with (Fin t1).
  rewrite !positionAt_rollerCoaster.
  unfold subV; cbn [x y z sub add neg].
  destruct (normalize_Fin (pathX t2 + - pathX t1) (pathY t2 + - pathY t1)
                          (pathZ t2 + - pathZ t1)) as (k & Hk & E & _).
  exists k. split; assumption.
Qed.

Lemma sin_small_pos (a : R) : 0 < a < 1 -> 0 < sin (a * PI).
Proof.
  intros Ha. pose proof PI_RGT_0. apply sin_gt_0; nra.
Qed.

Lemma cos_small_pos (a : R) : - (1 / 2) < a < 1 / 2 -> 0 < cos (a * PI).
Proof.
  intros Ha. pose proof PI_RGT_0. apply cos_gt_0; nra.
Qed.

Lemma sin_kPI (k : Z) : sin (IZR k * PI) = 0.
Proof. apply sin_eq_0_1. exists k. reflexivity. Qed.

Lemma cos_2kPI (k : nat) : cos (2 * INR k * PI) = 1.
Proof.
  replace (2 * INR k * PI) with (0 + 2 * INR k * PI) by ring.
  rewrite cos_period. apply cos_0.
Qed.

Lemma pathX_0 : pathX 0 = 0.
Proof. unfold pathX. replace (0 * (PI * 2) * 2) with 0 by ring. rewrite sin_0. ring. Qed.

Lemma pathY_0 : pathY 0 = 47.5.
Proof.
  unfold pathY. replace (0 * (PI * 2) * 4) with 0 by ring.
  replace (0 * (PI * 2) * 8) with 0 by ring. rewrite sin_0, cos_0. lra.
Qed.

Lemma pathZ_0 : pathZ 0 = 0.
Proof. unfold pathZ. replace (0 * (PI * 2) * 1.5) with 0 by ring. rewrite sin_0. ring. Qed.

Lemma pathX_1 : pathX 1 = 0.
Proof.
  unfold pathX. replace (1 * (PI * 2) * 2) with (IZR 4 * PI) by ring.
  rewrite sin_kPI. ring.
Qed.

Lemma pathY_1 : pathY 1 = 47.5.
Proof.
  unfold pathY. replace (1 * (PI * 2) * 4) with (IZR 8 * PI) by ring.
  replace (1 * (PI * 2) * 8) with (2 * INR 8 * PI) by (simpl; ring).
  rewrite sin_kPI, cos_2kPI. lra.
Qed.

Lemma pathZ_1 : pathZ 1 = 0.
Proof.
  unfold pathZ. replace (1 * (PI * 2) * 1.5) with (IZR 3 * PI) by lra.
  rewrite sin_kPI. ring.
Qed.

(** Shortly after the start the path moves towards positive z ... *)
Lemma pathZ_after_start (r : R) : 0 < r <= 0.0002 -> 0 < pathZ r.
Proof.
  intros Hr. unfold pathZ.
  replace (r * (PI * 2) * 1.5) with ((3 * r) * PI) by lra.
  replace (r * (PI * 2) * 2) with ((4 * r) * PI) by lra.
  pose proof (sin_small_pos (3 * r)). pose proof (cos_small_pos (4 * r)).
  assert (0 < sin (3 * r * PI) * cos (4 * r * PI)) by (apply Rmult_lt_0_compat; [apply H|apply H0]; lra).
  lra.
Qed.

(** ... and shortly before the end it comes back from positive z as
    well: z changes sign with period 1, it does not repeat. *)
Lemma pathZ_before_end (r : R) : 0.9998 <= r < 1 -> 0 < pathZ r.
Proof.
  intros Hr. unfold pathZ.
  replace (r * (PI * 2) * 1.5) with (PI - (3 * (1 - r)) * PI + 2 * INR 1 * PI)
    by (simpl; lra).
  replace (r * (PI * 2) * 2) with (- ((4 * (1 - r)) * PI) + 2 * INR 2 * PI)
    by (simpl; lra).
  rewrite sin_period, cos_period, sin_PI_x, cos_neg.
  pose proof (sin_small_pos (3 * (1 - r))). pose proof (cos_small_pos (4 * (1 - r))).
  assert (0 < sin (3 * (1 - r) * PI) * cos (4 * (1 - r) * PI))
    by (apply Rmult_lt_0_compat; [apply H|apply H0]; lra).
  lra.
Qed.

Lemma rollerCoaster_finitePath : finitePath rollerCoasterXYZ.
Proof. intros r. cbv [rollerCoasterXYZ Math_PI Math_sin Math_cos mul add]. repeat split. Qed.

Lemma pathZ_half : pathZ 0.5 = -150.
Proof.
  unfold pathZ. replace (0.5 * (PI * 2) * 1.5) with (3 * (PI / 2)) by lra.
  replace (0.5 * (PI * 2) * 2) with (2 * PI) by lra.
  rewrite sin_3PI2, cos_2PI. lra.
Qed.

Lemma pathZ_one_and_half : pathZ 1.5 = 150.
Proof.
  unfold pathZ.
  replace (1.5 * (PI * 2) * 1.5) with (PI / 2 + 2 * INR 2 * PI) by (simpl; lra).
  replace (1.5 * (PI * 2) * 2) with (2 * INR 3 * PI) by (simpl; lra).
  rewrite sin_period, sin_PI2, cos_2kPI. lra.
Qed.

(** The track climbs over the first hundredth of the loop. *)
Lemma pathY_increasing (a b : R) : 0 <= a < b -> b <= 0.015 -> pathY a < pathY b.
Proof.
  intros Hab Hb. unfold pathY.
  replace (a * (PI * 2) * 8) with (2 * (8 * a * PI)) by lra.
  replace (a * (PI * 2) * 4) with (8 * a * PI) by lra.
  replace (b * (PI * 2) * 8) with (2 * (8 * b * PI)) by lra.
  replace (b * (PI * 2) * 4) with (8 * b * PI) by lra.
  rewrite !cos_2a_sin.
  pose proof PI_RGT_0 as Hpi. pose proof PI_4 as Hpi4.
  assert (H1 : 0 <= sin (8 * a * PI)) by (apply sin_ge_0; nra).
  assert (H2 : sin (8 * a * PI) < sin (8 * b * PI))
    by (apply sin_increasing_1; nra).
  assert (H3 : sin (8 * b * PI) < 8 * b * PI) by (apply sin_lt_x; nra).
  assert (H4 : 8 * b * PI <= 0.48) by nra.
  set (s1 := sin (8 * a * PI)) in *. set (s2 := sin (8 * b * PI)) in *.
  assert (0 < (s2 - s1) * (1 - s1 - s2)) by (apply Rmult_lt_0_compat; lra).
  nra.
Qed.

Lemma pathY_rising : pathY 0.0001 < pathY 0.0002.
Proof. apply pathY_increasing; lra. Qed.

Lemma tangent_z_after_seam (r : R) :
  0 <= r <= 0.0001 -> (Fin 0 < z (tangentAt rollerCoasterXYZ (Fin r)))%js.
Proof.
  intros Hr. destruct (tangentAt_rollerCoaster r) as (k & Hk & ->).
  cbn [z lt].
  rewrite Rmin_right, Rmax_left by lra. rewrite pathZ_0.
  pose proof (pathZ_after_start (r + 0.0001)).
  apply Rmult_lt_0_compat; lra.
Qed.

Lemma tangent_z_before_seam (r : R) :
  0.9999 <= r <= 1 -> (z (tangentAt rollerCoasterXYZ (Fin r)) < Fin 0)%js.
Proof.
  intros Hr. destruct (tangentAt_rollerCoaster r) as (k & Hk & ->).
  cbn [z lt].
  rewrite Rmin_left, Rmax_right by lra. rewrite pathZ_1.
  pose proof (pathZ_before_end (r - 0.0001)).
  assert (0 < pathZ (r - 0.0001) * k) by (apply Rmult_lt_0_compat; lra).
  lra.
Qed.

Lemma initialize_eq :
  initialize (fun _ => []) newAnimationService = Ok tt initializedWorld.
Proof. reflexivity. Qed.

Lemma initializedWorld_ready : ready initializedWorld.
Proof.
  do 3 eexists. do 3 (split; [reflexivity|]). apply rollerCoaster_finitePath.
Qed.

End RollerCoaster.

(* ================================================================== *)
(** * Progress and velocity stay in range *)
(* ================================================================== *)

Lemma ready_animate (w : World) :
  ready w -> exists w', animate w = Ok tt w' /\ ready w'.
Proof.
  intros (cam & c & r & Hcam & Hc & Hr & Hf).
  destruct (animate_eq w cam c r Hcam Hc Hr)
    as (w' & E & _ & _ & Hcam' & (c' & Hc' & Hx) & Hr' & _).
  exists w'. split; [assumption|].
  do 3 eexists. repeat split; eauto. rewrite Hx. assumption.
Qed.

Lemma animate_progress_velocity (w : World) (p v : R) :
  ready w -> progress w = Fin p -> velocity w = Fin v ->
  (0 <= p)%R -> (0 <= v)%R ->
  exists w' p' v',
    animate w = Ok tt w' /\ ready w' /\
    progress w' = Fin p' /\ velocity w' = Fin v' /\
    (0 <= p' < 1)%R /\ (0.00005 <= v' <= 0.004)%R.
Proof.
  intros (cam & c & r & Hcam & Hc & Hr & Hf) Hp Hv Hp0 Hv0.
  destruct (animate_eq w cam c r Hcam Hc Hr)
    as (w' & E & Hp' & Hv' & Hcam' & (c' & Hc' & Hx) & Hr' & _).
  rewrite Hp, Hv in Hp', Hv'.
  cbn [add] in Hp', Hv'.
  destruct (rem_one_nonneg (p + v)) as (q & Hq & Hq01); [lra|].
  rewrite Hq in Hp', Hv'.
  destruct (finiteV_inv _ (tangentAt_finiteV _ q Hf)) as (tx & ty & tz & HT).
  rewrite HT in Hv'. cbn [y neg mul add] in Hv'.
  unfold CONFIG.MIN_VELOCITY, CONFIG.MAX_VELOCITY, CONFIG.GRAVITY_FACTOR,
    CONFIG.FIXED_DELTA_TIME, CONFIG.VELOCITY_DAMPING in Hv'.
  cbn [mul add] in Hv'.
  match type of Hv' with
  | _ = Math_max (Fin ?lo) (Math_min (Fin ?hi) (Fin ?e)) =>
      destruct (clamp_finite lo hi e) as (v' & Ev & Hv01); [lra|]
  end.
  rewrite Ev in Hv'.
  exists w', q, v'. repeat split; try assumption; try lra.
  do 3 eexists. repeat split; eauto. rewrite Hx. assumption.
Qed.

(** C1.  From any state of a running service with a non-negative progress
    and a non-negative velocity (in particular progress 0 with
    INITIAL_VELOCITY, or any velocity within [MIN_VELOCITY, MAX_VELOCITY]),
    any positive number of frames completes, and after the last of them
    (hence after each one) the progress lies in [0,1) and the velocity in
    [MIN_VELOCITY, MAX_VELOCITY]. *)
Theorem progress_velocity_in_range (w : World) (p v : R) (n : nat) :
  ready w -> progress w = Fin p -> velocity w = Fin v ->
  (0 <= p)%R -> (0 <= v)%R ->
  exists w',
    frames (S n) w = Ok tt w' /\
    (Fin 0 <= progress w' < Fin 1)%js /\
    (CONFIG.MIN_VELOCITY <= velocity w' <= CONFIG.MAX_VELOCITY)%js.
Proof.
  revert w p v. induction n as [|n IH]; intros w p v Hw Hp Hv Hp0 Hv0.
  - destruct (animate_progress_velocity w p v Hw Hp Hv Hp0 Hv0)
      as (w' & p' & v' & E & _ & Hp' & Hv' & Hpr & Hvr).
    exists w'. cbn [frames]. unfold bind. rewrite E. split; [reflexivity|].
    rewrite Hp', Hv'. cbn. lra.
  - destruct (animate_progress_velocity w p v Hw Hp Hv Hp0 Hv0)
      as (w1 & p1 & v1 & E & Hw1 & Hp1 & Hv1 & Hpr & Hvr).
    destruct (IH w1 p1 v1 Hw1 Hp1 Hv1) as (w' & E' & H'); [lra|lra|].
    exists w'. split; [|exact H'].
    change (frames (S (S n))) with (bind animate (fun _ => frames (S n))).
    unfold bind at 1. rewrite E. exact E'.
Qed.

(** Three frames from the initialised service. *)
Lemma progress_velocity_in_range_witness :
  exists w',
    frames 3 initializedWorld = Ok tt w' /\
    (Fin 0 <= progress w' < Fin 1)%js /\
    (CONFIG.MIN_VELOCITY <= velocity w' <= CONFIG.MAX_VELOCITY)%js.
Proof.
  apply (progress_velocity_in_range initializedWorld 0 0.0002 2).
  - apply initializedWorld_ready.
  - reflexivity.
  - reflexivity.
  - lra.
  - lra.
Defined.

(* ================================================================== *)
(** * The order of a frame update *)
(* ================================================================== *)



(* ================================================================== *)
(** * The loop seam *)
(* ================================================================== *)

(** C5.  The path is closed, position(0) = position(1), but its z
    coordinate changes sign over one period (z(0.5) = -150 and
    z(1.5) = 150), so the position is not periodic with period 1, and the
    tangent is not continuous across the seam: at t = 0 its z component
    is positive, at t = 0.99995 (as everywhere on [0.9999, 1]) it is
    negative. *)
Theorem loop_seam_kink :
  positionAt rollerCoasterXYZ (Fin 0) = positionAt rollerCoasterXYZ (Fin 1) /\
  z (positionAt rollerCoasterXYZ (Fin 0.5)) = Fin (-150) /\
  z (positionAt rollerCoasterXYZ (Fin 1.5)) = Fin 150 /\
  (Fin 0 < z (tangentAt rollerCoasterXYZ (Fin 0)))%js /\
  (z (tangentAt rollerCoasterXYZ (Fin 0.99995)) < Fin 0)%js.
Proof.
  split; [|split; [|split; [|split]]].
  - rewrite !positionAt_rollerCoaster.
    rewrite pathX_0, pathX_1, pathY_0, pathY_1, pathZ_0, pathZ_1. reflexivity.
  - rewrite positionAt_rollerCoaster. cbn [z]. now rewrite pathZ_half.
  - rewrite positionAt_rollerCoaster. cbn [z]. now rewrite pathZ_one_and_half.
  - apply tangent_z_after_seam. lra.
  - apply tangent_z_before_seam. lra.
Qed.

(* ================================================================== *)
(** * Aliasing between the two methods of the curve *)
(* ================================================================== *)

(** C4, as stated, fails: the vector returned by getPointAt(0.0001) holds
    the position at 0.0001 when it is returned and the position at 0 once
    getTangentAt(0.0001) has run. *)
Lemma getPointAt_result_clobbered :
  let '(p, c1) := getPointAt (Fin 0.0001) createParametricCurve in
  let '(_, c2) := getTangentAt (Fin 0.0001) c1 in
  deref p c1 = positionAt rollerCoasterXYZ (Fin 0.0001) /\
  deref p c2 <> positionAt rollerCoasterXYZ (Fin 0.0001).
Proof.
  rewrite getPointAt_eq. cbv beta iota. rewrite getTangentAt_eq.
  cbn [deref vector xyz createParametricCurve].
  split; [reflexivity|].
  change (Math_max 0%R (Fin 0.0001 - Fin 0.0001)%js)
    with (Fin (Rmax 0 (0.0001 - 0.0001))).
  rewrite Rmax_left by lra. rewrite !positionAt_rollerCoaster.
  intros E. injection E as _ _ Ez.
  pose proof (pathZ_after_start 0.0001). rewrite pathZ_0 in Ez. lra.
Qed.

(** C4, amended.  What each method returns depends on [t] alone: when it
    returns, getPointAt(t) refers to the closed-form position at [t] and
    getTangentAt(t) to the normalized finite difference, whatever the
    scratch vectors held before.  Both return a reference to a scratch
    vector of the closure: the vector returned by getPointAt is
    overwritten by the next getPointAt(u), and by getTangentAt(u), after
    which it holds the position at max(0, u - 0.0001); the vector returned
    by getTangentAt survives getPointAt and is overwritten by the next
    getTangentAt. *)
Theorem curve_methods_share_scratch (t u : num) (c : ParametricCurve) :
  (let '(p, c1) := getPointAt t c in
   deref p c1 = positionAt (xyz c) t) /\
  (let '(q, c1) := getTangentAt t c in
   deref q c1 = tangentAt (xyz c) t) /\
  (let '(p, c1) := getPointAt t c in
   let '(_, c2) := getPointAt u c1 in
   deref p c2 = positionAt (xyz c) u) /\
  (let '(p, c1) := getPointAt t c in
   let '(_, c2) := getTangentAt u c1 in
   deref p c2 = positionAt (xyz c) (Math_max 0%R (u - Fin 0.0001)%js)) /\
  (let '(q, c1) := getTangentAt t c in
   let '(_, c2) := getPointAt u c1 in
   deref q c2 = tangentAt (xyz c) t) /\
  (let '(q, c1) := getTangentAt t c in
   let '(_, c2) := getTangentAt u c1 in
   deref q c2 = tangentAt (xyz c) u).
Proof.
  repeat (rewrite ?getPointAt_eq, ?getTangentAt_eq; cbv beta iota).
  cbn [deref vector vector2 xyz]. repeat split.
Qed.

(* ================================================================== *)
(** * Where the camera is put *)
(* ================================================================== *)

Lemma first_progress :
  ((Fin 0 + CONFIG.INITIAL_VELOCITY) mod Fin 1)%js = Fin 0.0002.
Proof.
  unfold CONFIG.INITIAL_VELOCITY. cbn [add].
  replace (0 + 0.0002)%R with 0.0002%R by lra. apply rem_one_small. lra.
Qed.

Lemma trailing_parameter (r : R) :
  (0.0001 <= r)%R ->
  Math_max (Fin 0) (Fin r - Fin 0.0001)%js = Fin (r - 0.0001).
Proof.
  intros Hr. change (Math_max (Fin 0) (Fin r - Fin 0.0001)%js)
    with (Fin (Rmax 0 (r - 0.0001))).
  rewrite Rmax_right by lra. reflexivity.
Qed.

(** C3 on the first frame.  After [initialize], the first
    [updateCameraPosition] moves the progress to 0.0002.  The camera is
    put at position(0.0001) + tangent * (-1.5) + (0,1,0) with the steering
    offset on x, and looks at position(0.0001) + tangent * 5: the position
    used is the one left in the scratch vector by [getTangentAt], not the
    position sampled at the progress 0.0002, from which both differ. *)
Theorem camera_uses_trailing_position :
  exists w' cam',
    updateCameraPosition initializedWorld = Ok tt w' /\
    progress w' = Fin 0.0002 /\
    camera w' = Some cam' /\
    let P := positionAt rollerCoasterXYZ (progress w') in
    let Q := positionAt rollerCoasterXYZ (Fin 0.0001) in
    let T := tangentAt rollerCoasterXYZ (progress w') in
    let offset := addV (multiplyScalar T (Fin (-1.5))) (mkVector3 0%R 1%R 0%R) in
    let steer := ((mouseX w' - Fin 0.5) * Fin 20)%js in
    position cam' =
      mkVector3 (x (addV Q offset) + steer)%js (y (addV Q offset)) (z (addV Q offset)) /\
    position cam' <>
      mkVector3 (x (addV P offset) + steer)%js (y (addV P offset)) (z (addV P offset)) /\
    lookAtTarget cam' = Some (addV Q (multiplyScalar T (Fin 5))) /\
    lookAtTarget cam' <> Some (addV P (multiplyScalar T (Fin 5))).
Proof.
  pose proof (updateCameraPosition_eq initializedWorld _ _ eq_refl eq_refl) as E.
  cbv zeta in E.
  cbn [progress velocity mouseX initializedWorld xyz createParametricCurve] in E.
  rewrite first_progress in E. rewrite trailing_parameter in E by lra.
  replace (0.0002 - 0.0001)%R with 0.0001%R in E by lra.
  do 2 eexists. split; [exact E|]. world_fields.
  split; [reflexivity|]. split; [reflexivity|].
  cbn [position lookAtTarget].
  destruct (tangentAt_rollerCoaster 0.0002) as (k & _ & ->).
  rewrite !positionAt_rollerCoaster.
  pose proof pathY_rising as Hy.
  split; [reflexivity|]. split; [|split; [reflexivity|]].
  - cbn. intros H. injection H as _ Hy' _. lra.
  - cbn. intros H. injection H as _ Hy' _. lra.
Qed.

(* ================================================================== *)
(** * Steering *)
(* ================================================================== *)

(** C10.  [setMouseX] stores its argument unchanged, whatever it is, and
    the next [updateCameraPosition] adds (v - 0.5) * 20 to the x
    coordinate of the camera position; for a real v above 1 that offset
    exceeds 10 and for v below 0 it is below -10. *)
Theorem setMouseX_not_clamped (v : num) (w : World) (cam : Object3D)
        (c : ParametricCurve) :
  camera w = Some cam -> curve w = Some c ->
  exists w1 w2 cam2,
    setMouseX v w = Ok tt w1 /\ mouseX w1 = v /\
    updateCameraPosition w1 = Ok tt w2 /\ camera w2 = Some cam2 /\
    (let P := positionAt (xyz c) (Math_max 0%R (progress w2 - Fin 0.0001)%js) in
     let T := tangentAt (xyz c) (progress w2) in
     let unsteered :=
       addV P (addV (multiplyScalar T (Fin (-1.5))) (mkVector3 0%R 1%R 0%R)) in
     position cam2 =
       mkVector3 (x unsteered + (v - Fin 0.5) * Fin 20)%js
                 (y unsteered) (z unsteered)) /\
    (forall r : R,
        v = Fin r ->
        ((v - Fin 0.5) * Fin 20)%js = Fin ((r - 0.5) * 20) /\
        (1 < r -> 10 < (r - 0.5) * 20)%R /\
        (r < 0 -> (r - 0.5) * 20 < -10)%R).
Proof.
  intros Hcam Hc.
  pose proof (updateCameraPosition_eq (set_mouseX v w) cam c Hcam Hc) as E.
  cbv zeta in E.
  do 3 eexists. split; [reflexivity|]. split; [reflexivity|].
  split; [exact E|]. world_fields. split; [reflexivity|]. split.
  - reflexivity.
  - intros r ->. split; [reflexivity|]. split; intros; lra.
Qed.

(** Steering input 2 on the initialised service: an offset of 30. *)
Lemma setMouseX_not_clamped_witness :
  exists w1 w2 cam2,
    setMouseX (Fin 2) initializedWorld = Ok tt w1 /\ mouseX w1 = Fin 2 /\
    updateCameraPosition w1 = Ok tt w2 /\ camera w2 = Some cam2 /\
    ((Fin 2 - Fin 0.5) * Fin 20)%js = Fin ((2 - 0.5) * 20) /\
    (10 < (2 - 0.5) * 20)%R.
Proof.
  destruct (setMouseX_not_clamped (Fin 2) initializedWorld _ _ eq_refl eq_refl)
    as (w1 & w2 & cam2 & E1 & Hm & E2 & Hc & _ & H).
  destruct (H 2%R eq_refl) as (Ho & Hhi & _).
  exists w1, w2, cam2. repeat split; try assumption. apply Hhi. lra.
Defined.

(* ================================================================== *)
(** * The tangent has unit length *)
(* ================================================================== *)

Lemma subV_self_zero (a b c : R) :
  normalize (subV (mkVector3 (Fin a) (Fin b) (Fin c)) (mkVector3 (Fin a) (Fin b) (Fin c)))
  = zeroV.
Proof.
  unfold subV. cbn [x y z sub add neg].
  destruct (normalize_Fin (a + - a) (b + - b) (c + - c)) as (k & _ & -> & _).
  unfold zeroV. f_equal; f_equal; ring.
Qed.

(** C8.  On a path with finite coordinates, the vector returned by
    getTangentAt(t) has length 1 whenever the two sampled positions, at
    min(1, t + 0.0001) and max(0, t - 0.0001), differ; when they coincide
    it is the zero vector. *)
Theorem tangent_unit_length (c : ParametricCurve) (r : R) :
  finitePath (xyz c) ->
  let res := getTangentAt (Fin r) c in
  let P2 := positionAt (xyz c) (Math_min 1%R (Fin r + Fin 0.0001)%js) in
  let P1 := positionAt (xyz c) (Math_max 0%R (Fin r - Fin 0.0001)%js) in
  (P2 <> P1 -> length (deref (fst res) (snd res)) = Fin 1) /\
  (P2 = P1 -> deref (fst res) (snd res) = zeroV).
Proof.
  intros Hf res P2 P1. subst res. rewrite getTangentAt_eq.
  cbn [fst snd deref vector2]. unfold tangentAt. fold P2 P1.
  assert (H2 : finiteV P2) by (apply positionAt_finiteV; assumption).
  assert (H1 : finiteV P1) by (apply positionAt_finiteV; assumption).
  apply finiteV_inv in H2, H1.
  destruct H2 as (a2 & b2 & c2 & E2), H1 as (a1 & b1 & c1 & E1).
  rewrite E2, E1. split.
  - intros Hne. unfold subV. cbn [x y z sub add neg].
    apply normalize_unit. intros H0. apply sumsq_zero in H0.
    destruct H0 as (Ha & Hb & Hc). apply Hne.
    f_equal; f_equal; lra.
  - intros E. rewrite E. apply subV_self_zero.
Qed.

(** At t = 0 the source's path is not degenerate. *)
Lemma tangent_unit_length_witness :
  length (tangentAt rollerCoasterXYZ (Fin 0)) = Fin 1.
Proof.
  pose proof (tangent_unit_length createParametricCurve 0 rollerCoaster_finitePath)
    as H.
  cbv zeta in H. rewrite getTangentAt_eq in H.
  cbn [fst snd deref vector2 xyz createParametricCurve] in H.
  apply H.
  change (Math_min 1%R (Fin 0 + Fin 0.0001)%js) with (Fin (Rmin 1 (0 + 0.0001))).
  change (Math_max 0%R (Fin 0 - Fin 0.0001)%js) with (Fin (Rmax 0 (0 - 0.0001))).
  rewrite Rmin_right, Rmax_left by lra.
  rewrite !positionAt_rollerCoaster. intros E. injection E as _ _ Ez.
  pose proof (pathZ_after_start (0 + 0.0001)). rewrite pathZ_0 in Ez. lra.
Defined.

(* ================================================================== *)
(** * Running the service: initialize, start, events *)
(* ================================================================== *)

Lemma sampleCurve_eq (calls : list CurveCall) (w : World) (c : ParametricCurve) :
  curve w = Some c ->
  exists c', sampleCurve calls w = Ok tt (set_curve (Some c') w) /\ xyz c' = xyz c.
Proof.
  revert w c. induction calls as [|a l IH]; intros w c Hc.
  - exists c. split; [|reflexivity].
    destruct w; cbn [curve] in Hc; subst. reflexivity.
  - unfold sampleCurve. cbn [forEach]. fold (sampleCurve l).
    assert (exists c1, (match a with
                        | CallGetPointAt t => onCurve (getPointAt t) ;; ret tt
                        | CallGetTangentAt t => onCurve (getTangentAt t) ;; ret tt
                        end) w = Ok tt (set_curve (Some c1) w) /\ xyz c1 = xyz c)
      as (c1 & E1 & X1).
    { destruct w; cbn [curve] in Hc; subst. destruct a as [t|t]; run_monad.
      - rewrite getPointAt_eq. run_monad. eexists. split; reflexivity.
      - rewrite getTangentAt_eq. run_monad. eexists. split; reflexivity. }
    unfold bind at 1. rewrite E1.
    destruct (IH (set_curve (Some c1) w) c1 eq_refl) as (c' & E' & X').
    exists c'. rewrite E'. split; [|congruence].
    destruct w; reflexivity.
Qed.

Lemma initialize_ok (sampling : Geometry -> list CurveCall) :
  exists c0,
    initialize sampling newAnimationService
    = Ok tt (set_curve (Some c0) initializedWorld) /\
    xyz c0 = rollerCoasterXYZ.
Proof.
  unfold initialize, createLighting, createTrack, createGround, loadCarModel,
    sceneAdd, pushGeometry, pushMaterial.
  run_monad. cbn [newAnimationService app].
  match goal with
  | |- context [sampleCurve ?l ?w0] =>
      destruct (sampleCurve_eq l w0 _ eq_refl) as (c1 & -> & X1)
  end.
  run_monad. cbn [app].
  match goal with
  | |- context [sampleCurve ?l ?w0] =>
      destruct (sampleCurve_eq l w0 _ eq_refl) as (c2 & -> & X2)
  end.
  run_monad. cbn [app].
  match goal with
  | |- context [sampleCurve ?l ?w0] =>
      destruct (sampleCurve_eq l w0 _ eq_refl) as (c3 & -> & X3)
  end.
  run_monad. cbn [app].
  exists c3. split; [reflexivity|].
  change (xyz c3 = rollerCoasterXYZ). rewrite X3, X2, X1. reflexivity.
Qed.

(** A frame run while no request is pending leaves the service live. *)
Lemma animate_live (w : World) :
  (exists cam, camera w = Some cam) ->
  (exists c, curve w = Some c /\ xyz c = rollerCoasterXYZ) ->
  (exists r, renderer w = Some r) ->
  (exists s, scene w = Some s) ->
  rafPending w = [] -> rafNext w <> 0 ->
  geometries w = theGeometries -> materials w = theMaterials -> released w = [] ->
  exists w', animate w = Ok tt w' /\ live w' /\ loaderPending w' = loaderPending w.
Proof.
  intros (cam & Hcam) (c & Hc & Hx) (r & Hr) (s & Hs) Hp Hn Hg Hm Hrel.
  destruct (animate_eq w cam c r Hcam Hc Hr)
    as (w' & E & _ & _ & Hcam' & (c' & Hc' & Hx') & Hr' & _ & _ & _
        & Hid & Hpend & Hnext & Hs' & Hg' & Hm' & Hl' & Hrel').
  exists w'. split; [exact E|]. split; [|exact Hl'].
  unfold live. rewrite Hid, Hpend, Hnext, Hs', Hg', Hm', Hrel', Hp.
  repeat split; eauto.
  exists c'. split; [assumption|congruence].
Qed.

Lemma runFrame_live (w : World) :
  live w -> exists w', runFrame w = Ok tt w' /\ live w' /\
                       loaderPending w' = loaderPending w.
Proof.
  intros (Hcam & Hc & Hr & Hs & Hid & Hp & Hn & Hg & Hm & Hrel).
  unfold runFrame, bind, gets, modify. rewrite Hp. cbn [forEach].
  destruct (animate_live (set_rafPending [] w)) as (w' & E & Hl & Hld);
    try (destruct w; assumption); try (destruct w; reflexivity).
  exists w'. unfold bind. rewrite E. split; [reflexivity|]. split; [assumption|].
  rewrite Hld. destruct w; reflexivity.
Qed.

Lemma handle_live (e : Event) (w : World) :
  live w -> exists w', handle e w = Ok tt w' /\ live w'.
Proof.
  intros Hw. destruct e as [|v|o a|].
  - destruct (runFrame_live w Hw) as (w' & E & Hl & _). eauto.
  - eexists. split; [reflexivity|]. destruct w; exact Hw.
  - destruct Hw as (Hcam & Hc & Hr & (s & Hs) & Hid & Hp & Hn & Hg & Hm & Hrel).
    destruct w; world_fields; cbn [scene] in Hs; subst.
    cbn [handle]. run_monad. destruct loaderPending0.
    + unfold onCarLoaded, sceneAdd. destruct a; run_monad;
        (eexists; split; [reflexivity|]);
        unfold live; world_fields; repeat split; eauto.
    + eexists; split; [reflexivity|].
      unfold live; world_fields; repeat split; eauto.
  - eexists. split; [reflexivity|]. destruct w; exact Hw.
Qed.

Lemma run_live (events : list Event) (w : World) :
  live w -> exists w', run events w = Ok tt w' /\ live w'.
Proof.
  revert w. induction events as [|e l IH]; intros w Hw.
  - exists w. split; [reflexivity|assumption].
  - destruct (handle_live e w Hw) as (w1 & E1 & H1).
    destruct (IH w1 H1) as (w' & E' & H').
    exists w'. split; [|assumption].
    unfold run. cbn [forEach]. unfold bind at 1. rewrite E1. exact E'.
Qed.

Lemma start_live (sampling : Geometry -> list CurveCall) :
  exists w, (initialize sampling ;; start) newAnimationService = Ok tt w /\ live w.
Proof.
  destruct (initialize_ok sampling) as (c0 & E0 & X0).
  destruct (animate_live (set_curve (Some c0) initializedWorld))
    as (w & E & Hl & _); try reflexivity; try (eexists; reflexivity).
  - exists c0. split; [reflexivity|assumption].
  - cbn. discriminate.
  - exists w. unfold bind. rewrite E0. split; assumption.
Qed.

(** Every run of [initialize], [start] and then events completes, in a
    live service. *)
Lemma reachable_live (sampling : Geometry -> list CurveCall) (events : list Event) :
  exists w,
    exec (initialize sampling ;; start ;; run events) newAnimationService = Some w /\
    live w.
Proof.
  destruct (start_live sampling) as (w0 & E0 & H0).
  destruct (run_live events w0 H0) as (w & E & H).
  exists w. split; [|assumption].
  unfold exec. unfold bind in *.
  destruct (initialize sampling newAnimationService) as [[] w1|]; [|discriminate].
  rewrite E0, E. reflexivity.
Qed.

(* ================================================================== *)
(** * Teardown *)
(* ================================================================== *)

(** [dispose] completes in every state, and a second call changes
    nothing. *)
Lemma dispose_twice (w : World) :
  exists w1,
    dispose w = Ok tt w1 /\ dispose w1 = Ok tt w1 /\
    animationId w1 = 0 /\ geometries w1 = [] /\ materials w1 = [] /\
    released w1
    = ((released w ++ map RGeometry (geometries w))
         ++ map RMaterial (materials w))%list /\
    rafPending w1
    = (if Nat.eqb (animationId w) 0 then rafPending w
       else remove Nat.eq_dec (animationId w) (rafPending w)) /\
    scene w1 = match scene w with Some _ => Some [] | None => None end.
Proof.
  destruct w as [sc cam rd id p v cv car mx ms gs mats pend nxt ld rel].
  unfold dispose, cancelAnimationFrame. world_fields.
  destruct id as [|id]; destruct rd as [rd|]; destruct sc as [sc|];
    run_monad; cbn [Nat.eqb]; run_monad;
    (eexists; split; [reflexivity|]); world_fields;
    (split; [|repeat split]);
    cbn [Nat.eqb map]; run_monad; rewrite !app_nil_r; reflexivity.
Qed.

Lemma handle_stopped (e : Event) (w : World) :
  stopped w ->
  exists w', handle e w = Ok tt w' /\ stopped w' /\ renderer w' = renderer w.
Proof.
  intros ((s & Hs) & Hp).
  destruct w as [sc cam rd id p v cv car mx ms gs mats pend nxt ld rel].
  cbn [scene rafPending] in Hs, Hp. subst.
  destruct e as [|u|o a|]; cbn [handle].
  - unfold runFrame. run_monad. cbn [forEach]. unfold ret.
    eexists; split; [reflexivity|]. unfold stopped; world_fields; repeat split; eauto.
  - unfold setMouseX. run_monad.
    eexists; split; [reflexivity|]. unfold stopped; world_fields; repeat split; eauto.
  - run_monad. destruct ld.
    + unfold onCarLoaded, sceneAdd. destruct a; run_monad;
        (eexists; split; [reflexivity|]); unfold stopped; world_fields;
        repeat split; eauto.
    + eexists; split; [reflexivity|]. unfold stopped; world_fields; repeat split; eauto.
  - run_monad.
    eexists; split; [reflexivity|]. unfold stopped; world_fields; repeat split; eauto.
Qed.

Lemma run_stopped (events : list Event) (w : World) :
  stopped w ->
  exists w', run events w = Ok tt w' /\ stopped w' /\ renderer w' = renderer w.
Proof.
  revert w. induction events as [|e l IH]; intros w Hw.
  - exists w. repeat split; try reflexivity; apply Hw.
  - destruct (handle_stopped e w Hw) as (w1 & E1 & H1 & R1).
    destruct (IH w1 H1) as (w' & E' & H' & R').
    exists w'. split; [|split; [assumption|congruence]].
    unfold run. cbn [forEach]. unfold bind at 1. rewrite E1. exact E'.
Qed.

(** C9.  After [initialize], [start] and any sequence of events, [dispose]
    completes; calling it a second time completes and leaves the very same
    state: the animation id is 0, the geometry and material lists are
    empty and no geometry or material has been disposed of twice.  After
    the first [dispose] no animation frame is requested, and whatever the
    host does afterwards none is requested again and no frame is
    rendered. *)
Theorem dispose_idempotent (sampling : Geometry -> list CurveCall)
        (events later : list Event) :
  exists w w1,
    exec (initialize sampling ;; start ;; run events) newAnimationService = Some w /\
    dispose w = Ok tt w1 /\
    (dispose ;; dispose) w = Ok tt w1 /\
    animationId w1 = 0 /\ geometries w1 = [] /\ materials w1 = [] /\
    NoDup (released w1) /\
    rafPending w1 = [] /\
    exists w2,
      run later w1 = Ok tt w2 /\ rafPending w2 = [] /\ renderer w2 = renderer w1.
Proof.
  destruct (reachable_live sampling events)
    as (w & E & Hcam & Hc & Hr & (s & Hs) & Hid & Hp & Hn & Hg & Hm & Hrel).
  destruct (dispose_twice w)
    as (w1 & D1 & D2 & Hid1 & Hg1 & Hm1 & Hrel1 & Hp1 & Hs1).
  assert (Hpend : rafPending w1 = []).
  { rewrite Hp1, Hp. destruct (Nat.eqb_spec (animationId w) 0) as [H0|_];
      [contradiction|].
    cbn [remove]. destruct (Nat.eq_dec (animationId w) (animationId w));
      [reflexivity|contradiction]. }
  assert (Hst : stopped w1).
  { split; [|assumption]. rewrite Hs1, Hs. eauto. }
  destruct (run_stopped later w1 Hst) as (w2 & E2 & (_ & Hp2) & Hr2).
  exists w, w1. repeat split; try assumption.
  - unfold bind. rewrite D1. exact D2.
  - rewrite Hrel1, Hrel, Hg, Hm. cbn.
    repeat constructor; cbn; intuition discriminate.
  - exists w2. repeat split; assumption.
Qed.

(* ================================================================== *)
(** * Where the vehicle is put *)
(* ================================================================== *)

(** The basis built in [updateCarPosition] has finite entries for every
    finite tangent, the zero vector included. *)
Lemma carBasis_finiteM (T : Vector3) :
  finiteV T ->
  let forward := normalize (clone T) in
  let right := normalize (crossVectors newVector3 (mkVector3 0%R 1%R 0%R) forward) in
  let carUp := normalize (crossVectors newVector3 forward right) in
  finiteM (makeBasis right carUp forward).
Proof.
  intros HT forward right carUp.
  assert (Hf : finiteV forward).
  { apply normalize_finiteV. destruct HT as (? & ? & ?). repeat split; assumption. }
  assert (Hr : finiteV right).
  { apply normalize_finiteV, crossVectors_finiteV; [repeat split|assumption]. }
  assert (Hu : finiteV carUp).
  { apply normalize_finiteV, crossVectors_finiteV; assumption. }
  repeat split; first [apply Hr | apply Hu | apply Hf].
Qed.

(** On a zero tangent every [normalize] falls back to dividing by 1: the
    three axes handed to [makeBasis] are zero vectors. *)
Lemma carBasis_degenerate :
  let forward := normalize (clone zeroV) in
  let right := normalize (crossVectors newVector3 (mkVector3 0%R 1%R 0%R) forward) in
  let carUp := normalize (crossVectors newVector3 forward right) in
  makeBasis right carUp forward = mkBasis zeroV zeroV zeroV.
Proof.
  intros forward right carUp.
  assert (Hf : forward = zeroV) by apply normalize_zero.
  assert (Hr : right = zeroV).
  { subst right. rewrite Hf.
    replace (crossVectors newVector3 (mkVector3 0%R 1%R 0%R) zeroV) with zeroV
      by (unfold zeroV, crossVectors; cbn [x y z mul sub add neg];
          f_equal; f_equal; ring).
    apply normalize_zero. }
  assert (Hu : carUp = zeroV).
  { subst carUp. rewrite Hf, Hr.
    replace (crossVectors newVector3 zeroV zeroV) with zeroV
      by (unfold zeroV, crossVectors; cbn [x y z mul sub add neg];
          f_equal; f_equal; ring).
    apply normalize_zero. }
  unfold makeBasis. rewrite Hf, Hr, Hu. reflexivity.
Qed.

(** A frame of a service whose vehicle is loaded. *)
Lemma animate_car (w : World) (cam car : Object3D) (c : ParametricCurve)
      (r : WebGLRenderer) (p v : R) :
  camera w = Some cam -> curve w = Some c -> renderer w = Some r ->
  finitePath (xyz c) -> carModel w = Some car ->
  progress w = Fin p -> velocity w = Fin v ->
  (0.0001 <= p + v < 1)%R ->
  let Q := positionAt (xyz c) (Fin (p + v - 0.0001)) in
  let T := tangentAt (xyz c) (Fin (p + v)) in
  let forward := normalize (clone T) in
  let right := normalize (crossVectors newVector3 (mkVector3 0%R 1%R 0%R) forward) in
  let carUp := normalize (crossVectors newVector3 forward right) in
  exists w' car',
    animate w = Ok tt w' /\ progress w' = Fin (p + v) /\
    carModel w' = Some car' /\
    position car' = mkVector3 (x Q) (y Q + Fin 0.2)%js (z Q) /\
    rotation car' = Some (makeBasis right carUp forward).
Proof.
  intros Hcam Hc Hr Hf Hcar Hp Hv Hpv Q T forward right carUp.
  destruct (animate_eq w cam c r Hcam Hc Hr)
    as (w' & E & Hp' & _ & _ & _ & _ & Hcar' & _).
  rewrite Hcar, Hp, Hv in Hcar'. rewrite Hp, Hv in Hp'.
  cbn [add] in Hp', Hcar'. rewrite rem_one_small in Hp', Hcar' by lra.
  rewrite trailing_parameter in Hcar' by lra.
  fold Q T forward right carUp in Hcar'.
  eexists w', _. split; [exact E|]. split; [exact Hp'|]. split; [exact Hcar'|].
  erewrite rotateY_zero; [split; reflexivity|reflexivity|].
  apply carBasis_finiteM, tangentAt_finiteV, Hf.
Qed.

Lemma handle_ModelLoaded_eq (o : Object3D) (a : bool) (w : World)
      (s : list SceneChild) :
  loaderPending w = true -> scene w = Some s ->
  exists w',
    handle (ModelLoaded o a) w = Ok tt w' /\
    carModel w' = Some (set_scale (mkVector3 0.05%R 0.05%R 0.05%R) o) /\
    progress w' = progress w /\ velocity w' = velocity w /\
    camera w' = camera w /\ curve w' = curve w /\ renderer w' = renderer w /\
    rafPending w' = rafPending w /\ mouseX w' = mouseX w.
Proof.
  intros Hl Hs.
  destruct w as [sc cam rd id p v cv car mx ms gs mats pend nxt ld rel].
  cbn [loaderPending scene] in Hl, Hs. subst.
  cbn [handle]. unfold onCarLoaded, sceneAdd.
  destruct a; run_monad; (eexists; split; [reflexivity|]); world_fields;
    repeat split.
Qed.

Lemma runFrame_eq (w w' : World) (id : nat) :
  rafPending w = [id] -> animate (set_rafPending [] w) = Ok tt w' ->
  runFrame w = Ok tt w'.
Proof.
  intros Hp E. unfold runFrame, bind, gets, modify. rewrite Hp.
  cbn [forEach]. unfold bind. rewrite E. reflexivity.
Qed.

Lemma first_frame :
  exists w1 v1,
    (initialize (fun _ => []) ;; start) newAnimationService = Ok tt w1 /\
    live w1 /\ progress w1 = Fin 0.0002 /\ velocity w1 = Fin v1 /\
    (0.00005 <= v1 <= 0.004)%R /\
    loaderPending w1 = true.
Proof.
  destruct (animate_live initializedWorld) as (w1 & E & Hl & Hld);
    try reflexivity; try (eexists; reflexivity).
  { eexists. split; reflexivity. }
  { cbn. discriminate. }
  destruct (animate_progress_velocity initializedWorld 0 0.0002
              initializedWorld_ready eq_refl eq_refl)
    as (w1' & p1 & v1 & E' & _ & Hp1 & Hv1 & _ & Hvr); [lra|lra|].
  rewrite E in E'. injection E' as <-.
  destruct (animate_eq initializedWorld _ _ _ eq_refl eq_refl eq_refl)
    as (w1' & E' & Hp' & _).
  rewrite E in E'. injection E' as <-.
  cbn [progress velocity initializedWorld] in Hp'. rewrite first_progress in Hp'.
  exists w1, v1. unfold bind. rewrite initialize_eq.
  split; [exact E|]. split; [exact Hl|]. split; [exact Hp'|].
  split; [exact Hv1|]. split; [lra|exact Hld].
Qed.

Lemma exec_seq (m1 m2 k : M unit) (w w1 : World) :
  (m1 ;; m2) w = Ok tt w1 -> exec (m1 ;; m2 ;; k) w = exec k w1.
Proof.
  unfold exec, bind. intros E.
  destruct (m1 w) as [[] w0|]; [|discriminate]. rewrite E. reflexivity.
Qed.

(** C7 on the first frame drawn with the vehicle.  The service is
    initialised and started, the model is delivered, and the next frame
    runs.  The vehicle is oriented by the basis built from the tangent at
    the progress p, and put at position(p - 0.0001) + (0, 0.2, 0): the
    position left in the scratch vector by [getTangentAt], which differs
    from position(p) + (0, 0.2, 0). *)
Theorem vehicle_uses_trailing_position :
  exists w car p,
    exec (initialize (fun _ => []) ;; start ;;
          run [ModelLoaded newObject3D false; Frame]) newAnimationService
    = Some w /\
    progress w = Fin p /\ carModel w = Some car /\
    let P := positionAt rollerCoasterXYZ (Fin p) in
    let Q := positionAt rollerCoasterXYZ (Fin (p - 0.0001)) in
    let T := tangentAt rollerCoasterXYZ (Fin p) in
    let forward := normalize (clone T) in
    let right := normalize (crossVectors newVector3 (mkVector3 0%R 1%R 0%R) forward) in
    let carUp := normalize (crossVectors newVector3 forward right) in
    position car = mkVector3 (x Q) (y Q + Fin 0.2)%js (z Q) /\
    position car <> mkVector3 (x P) (y P + Fin 0.2)%js (z P) /\
    rotation car = Some (makeBasis right carUp forward).
Proof.
  destruct first_frame as (w1 & v1 & E1 & Hl1 & Hp1 & Hv1 & Hvr & Hld1).
  destruct Hl1 as ((cam & Hcam) & (c & Hc & Hx) & (r & Hr) & (s & Hs) & _ & Hpend & _).
  destruct (handle_ModelLoaded_eq newObject3D false w1 s Hld1 Hs)
    as (w2 & E2 & Hcar2 & Hp2 & Hv2 & Hcam2 & Hc2 & Hr2 & Hpend2 & _).
  destruct (animate_car (set_rafPending [] w2) cam
              (set_scale (mkVector3 0.05%R 0.05%R 0.05%R) newObject3D)
              c r 0.0002 v1)
    as (w3 & car3 & E3 & Hp3 & Hcar3 & Hpos3 & Hrot3).
  { cbn [camera set_rafPending]. congruence. }
  { cbn [curve set_rafPending]. congruence. }
  { cbn [renderer set_rafPending]. congruence. }
  { rewrite Hx. apply rollerCoaster_finitePath. }
  { cbn [carModel set_rafPending]. exact Hcar2. }
  { cbn [progress set_rafPending]. congruence. }
  { cbn [velocity set_rafPending]. congruence. }
  { lra. }
  rewrite Hx in Hpos3, Hrot3.
  exists w3, car3, (0.0002 + v1)%R.
  split.
  - rewrite (exec_seq _ _ _ _ w1 E1).
    unfold exec, run. cbn [forEach]. unfold bind. rewrite E2. cbn [handle].
    rewrite (runFrame_eq w2 w3 (animationId w1)); [reflexivity| |exact E3].
    congruence.
  - split; [exact Hp3|]. split; [exact Hcar3|]. cbv zeta.
    split; [exact Hpos3|]. split; [|exact Hrot3].
    rewrite Hpos3, !positionAt_rollerCoaster. cbn [x y z add].
    intros H. injection H as _ Hy _.
    pose proof (pathY_increasing (0.0002 + v1 - 0.0001) (0.0002 + v1)). lra.
Qed.

(** While the vehicle is not loaded, every frame completes, leaves it
    absent and gives the camera a position and a target. *)
Lemma frames_without_vehicle (n : nat) (w : World) :
  ready w -> carModel w = None ->
  exists w' cam' target,
    frames (S n) w = Ok tt w' /\ carModel w' = None /\
    camera w' = Some cam' /\ lookAtTarget cam' = Some target.
Proof.
  revert w. induction n as [|n IH]; intros w Hw Hcar.
  - destruct Hw as (cam & c & r & Hcam & Hc & Hr & Hf).
    destruct (animate_eq w cam c r Hcam Hc Hr)
      as (w' & E & _ & _ & Hcam' & _ & _ & Hcar' & _).
    rewrite Hcar in Hcar'.
    exists w'. do 2 eexists. cbn [frames]. unfold bind. rewrite E.
    split; [reflexivity|]. split; [exact Hcar'|]. split; [exact Hcam'|reflexivity].
  - destruct (ready_animate w Hw) as (w1 & E1 & Hw1).
    assert (Hcar1 : carModel w1 = None).
    { destruct Hw as (cam & c & r & Hcam & Hc & Hr & Hf).
      destruct (animate_eq w cam c r Hcam Hc Hr)
        as (w' & E & _ & _ & _ & _ & _ & Hcar' & _).
      rewrite E1 in E. injection E as <-. rewrite Hcar in Hcar'. exact Hcar'. }
    destruct (IH w1 Hw1 Hcar1) as (w' & cam' & t & E' & H').
    exists w', cam', t. split; [|exact H'].
    change (frames (S (S n))) with (bind animate (fun _ => frames (S n))).
    unfold bind at 1. rewrite E1. exact E'.
Qed.

(* ================================================================== *)
(** * No NaN in the placements *)
(* ================================================================== *)

Lemma rem_one_finite (r : R) : exists q, (Fin r mod Fin 1)%js = Fin q.
Proof.
  unfold rem. destruct (Req_dec_T 1 0) as [H|_]; [lra|]. eauto.
Qed.

Lemma animate_finite (w : World) :
  ready w -> finite (progress w) -> finite (velocity w) -> finite (mouseX w) ->
  exists w' cam' target,
    animate w = Ok tt w' /\ ready w' /\
    finite (progress w') /\ finite (velocity w') /\ finite (mouseX w') /\
    camera w' = Some cam' /\ finiteV (position cam') /\
    lookAtTarget cam' = Some target /\ finiteV target /\
    match carModel w' with
    | None => carModel w = None
    | Some car' =>
        carModel w <> None /\
        exists m, finiteV (position car') /\ rotation car' = Some m /\ finiteM m
    end.
Proof.
  intros (cam & c & r & Hcam & Hc & Hr & Hf) Hp Hv Hm.
  apply finite_inv in Hp, Hv, Hm.
  destruct Hp as [p Hp], Hv as [v Hv], Hm as [m Hm].
  destruct (animate_eq w cam c r Hcam Hc Hr)
    as (w' & E & Hp' & Hv' & Hcam' & (c' & Hc' & Hx) & Hr' & Hcar' & _ & Hm' & _).
  rewrite Hp, Hv in Hp', Hv', Hcam', Hcar'. rewrite Hm in Hcam', Hm'.
  cbn [add] in Hp', Hv', Hcam', Hcar'.
  destruct (rem_one_finite (p + v)) as (q & Hq).
  rewrite Hq in Hp', Hv', Hcam', Hcar'.
  change (Math_max 0%R (Fin q - Fin 0.0001)%js)
    with (Fin (Rmax 0 (q - 0.0001))) in Hcam', Hcar'.
  pose proof (tangentAt_finiteV _ q Hf) as HT.
  pose proof (positionAt_finiteV _ (Rmax 0 (q - 0.0001)) Hf) as HP.
  destruct (finiteV_inv _ HT) as (tx & ty & tz & ET).
  destruct (finiteV_inv _ HP) as (px & py & pz & EP).
  rewrite ET in Hv'. cbn [y neg mul add] in Hv'.
  unfold CONFIG.MIN_VELOCITY, CONFIG.MAX_VELOCITY, CONFIG.GRAVITY_FACTOR,
    CONFIG.FIXED_DELTA_TIME, CONFIG.VELOCITY_DAMPING in Hv'.
  cbn [mul add] in Hv'.
  match type of Hv' with
  | _ = Math_max (Fin ?lo) (Math_min (Fin ?hi) (Fin ?e)) =>
      destruct (clamp_finite lo hi e) as (v' & Ev & _); [lra|]
  end.
  rewrite Ev in Hv'.
  exists w'. do 2 eexists.
  split; [exact E|]. split.
  { do 3 eexists. repeat split; eauto. rewrite Hx. assumption. }
  rewrite Hp', Hv', Hm'.
  split; [exact I|]. split; [exact I|]. split; [exact I|].
  split; [exact Hcam'|]. cbn [position lookAtTarget].
  split.
  { rewrite ET, EP. repeat split. }
  split; [reflexivity|].
  split.
  { rewrite ET, EP. repeat split. }
  rewrite Hcar'. destruct (carModel w) as [car|]; [|reflexivity].
  split; [discriminate|].
  erewrite rotateY_zero;
    [|reflexivity|apply carBasis_finiteM, tangentAt_finiteV, Hf].
  eexists. cbn [position rotation].
  split; [|split; [reflexivity|apply carBasis_finiteM, tangentAt_finiteV, Hf]].
  rewrite EP. repeat split.
Qed.

(** C6.  On any path with finite coordinates, so also where two sampled
    positions coincide and the tangent is the zero vector, and from finite
    progress, velocity and steering input, every positive number of frames
    completes and afterwards the camera position, the camera target and,
    when the vehicle is loaded, its position and its basis matrix have
    finite components only: no NaN, and no infinity either. *)
Theorem transforms_stay_finite (n : nat) (w : World) :
  ready w -> finite (progress w) -> finite (velocity w) -> finite (mouseX w) ->
  exists w' cam' target,
    frames (S n) w = Ok tt w' /\
    camera w' = Some cam' /\ finiteV (position cam') /\
    lookAtTarget cam' = Some target /\ finiteV target /\
    match carModel w' with
    | None => carModel w = None
    | Some car' =>
        carModel w <> None /\
        exists m, finiteV (position car') /\ rotation car' = Some m /\ finiteM m
    end.
Proof.
  revert w. induction n as [|n IH]; intros w Hw Hp Hv Hm.
  - destruct (animate_finite w Hw Hp Hv Hm)
      as (w' & cam' & t & E & _ & _ & _ & _ & H).
    exists w', cam', t. cbn [frames]. unfold bind. rewrite E.
    split; [reflexivity|exact H].
  - destruct (animate_finite w Hw Hp Hv Hm)
      as (w1 & cam1 & t1 & E1 & Hw1 & Hp1 & Hv1 & Hm1 & _ & _ & _ & _ & Hcar1).
    destruct (IH w1 Hw1 Hp1 Hv1 Hm1) as (w' & cam' & t & E' & Hc' & Hpc & Ht & Hft & Hcar').
    exists w', cam', t.
    change (frames (S (S n))) with (bind animate (fun _ => frames (S n))).
    unfold bind at 1. rewrite E1.
    repeat (split; [assumption|]).
    destruct (carModel w') as [car'|].
    + destruct Hcar' as (Hne & H). split; [|exact H].
      destruct (carModel w1); [apply Hcar1|contradiction].
    + rewrite Hcar' in Hcar1. exact Hcar1.
Qed.

Lemma stillWorld_tangent (t : num) : tangentAt stillXYZ t = zeroV.
Proof.
  unfold tangentAt, positionAt, stillXYZ, multiplyScalar, CONFIG.CURVE_SCALE.
  cbn [x y z mul]. apply subV_self_zero.
Qed.

Lemma stillWorld_ready : ready stillWorld.
Proof.
  do 3 eexists. do 3 (split; [reflexivity|]).
  intros r. cbn. repeat split.
Qed.

(** Three frames on the path that rests at the origin, vehicle loaded. *)
Lemma transforms_stay_finite_witness :
  exists w' cam' target car' m,
    frames 3 stillWorld = Ok tt w' /\
    camera w' = Some cam' /\ finiteV (position cam') /\
    lookAtTarget cam' = Some target /\ finiteV target /\
    carModel w' = Some car' /\
    finiteV (position car') /\ rotation car' = Some m /\ finiteM m.
Proof.
  destruct (transforms_stay_finite 2 stillWorld stillWorld_ready I I I)
    as (w' & cam' & t & E & Hc & Hp & Ht & Hft & Hcar).
  destruct (carModel w') as [car'|] eqn:Ecar; [|discriminate Hcar].
  destruct Hcar as (_ & m & Hpos & Hrot & Hm).
  exists w', cam', t, car', m.
  split; [exact E|]. split; [exact Hc|]. split; [exact Hp|].
  split; [exact Ht|]. split; [exact Hft|]. split; [exact Ecar|].
  split; [exact Hpos|]. split; [exact Hrot|exact Hm].
Defined.

(** The states reachable after [initialize] and [start] are live. *)
Lemma reachable_is_live (w : World) : reachable w -> live w.
Proof.
  intros (sampling & events & E).
  destruct (reachable_live sampling events) as (w' & E' & H).
  rewrite E in E'. injection E' as ->. exact H.
Qed.

(* ================================================================== *)
(** * Further properties of the path and of the motion update *)
(* ================================================================== *)

Section PathBounds.
Local Open Scope R_scope.

Lemma pathX_bound (r : R) : -150 <= pathX r <= 150.
Proof.
  unfold pathX.
  pose proof (SIN_bound (r * (PI * 2) * 2)) as Hs.
  pose proof (COS_bound (r * (PI * 2) * 3)) as Hc.
  set (s := sin _) in *. set (c := cos _) in *.
  assert (-1 <= s * c <= 1) by nra. lra.
Qed.

Lemma pathZ_bound (r : R) : -150 <= pathZ r <= 150.
Proof.
  unfold pathZ.
  pose proof (SIN_bound (r * (PI * 2) * 1.5)) as Hs.
  pose proof (COS_bound (r * (PI * 2) * 2)) as Hc.
  set (s := sin _) in *. set (c := cos _) in *.
  assert (-1 <= s * c <= 1) by nra. lra.
Qed.

Lemma pathY_bound (r : R) : 7.5 <= pathY r <= 52.5.
Proof.
  unfold pathY.
  replace (r * (PI * 2) * 8) with (2 * (r * (PI * 2) * 4)) by lra.
  rewrite cos_2a_sin.
  pose proof (SIN_bound (r * (PI * 2) * 4)) as Hs.
  set (s := sin _) in *.
  assert (0 <= (s + 1) * (2 - s)) by (apply Rmult_le_pos; lra).
  pose proof (Rle_0_sqr (s - 1 / 2)) as Hq. unfold Rsqr in Hq.
  nra.
Qed.

(** The components of a normalized finite vector. *)
Lemma normalize_components (a b c : R) :
  exists a' b' c',
    normalize (mkVector3 (Fin a) (Fin b) (Fin c))
    = mkVector3 (Fin a') (Fin b') (Fin c') /\
    a' * a' + b' * b' + c' * c' <= 1.
Proof.
  destruct (normalize_Fin a b c) as (k & Hk & E & H0 & H1).
  exists (a * k), (b * k), (c * k). split; [exact E|].
  destruct (Req_dec (a * a + b * b + c * c) 0) as [Z|NZ].
  - apply sumsq_zero in Z. destruct Z as (-> & -> & ->). lra.
  - specialize (H1 NZ).
    assert (HS : 0 <= a * a + b * b + c * c) by apply sumsq_nonneg.
    pose proof (sqrt_sqrt _ HS) as Hq.
    set (S := a * a + b * b + c * c) in *. set (q := sqrt S) in *.
    replace (a * k * (a * k) + b * k * (b * k) + c * k * (c * k))
      with (k * k * S) by (unfold S; ring).
    rewrite <- Hq. replace (k * k * (q * q)) with ((k * q) * (k * q)) by ring.
    rewrite H1. lra.
Qed.

Lemma tangentAt_components (f : num -> num * num * num) (r : R) :
  finitePath f ->
  exists a b c,
    tangentAt f (Fin r) = mkVector3 (Fin a) (Fin b) (Fin c) /\
    a * a + b * b + c * c <= 1.
Proof.
  intros Hf. unfold tangentAt.
  set (P2 := positionAt f _). set (P1 := positionAt f _).
  assert (H : finiteV (subV P2 P1)).
  { apply subV_finiteV; apply positionAt_finiteV; assumption. }
  destruct (finiteV_inv _ H) as (a & b & c & ->).
  apply normalize_components.
Qed.

End PathBounds.

(** X1.  Whatever the scratch vectors hold, the point returned by
    getPointAt(t) on the source's curve lies in the box
    [-150,150] x [7.5,52.5] x [-150,150], for every real t. *)
Theorem getPointAt_in_box (t : R) (v1 v2 : Vector3) :
  let res := getPointAt (Fin t) (mkCurve rollerCoasterXYZ v1 v2) in
  let p := deref (fst res) (snd res) in
  (Fin (-150) <= x p <= Fin 150)%js /\
  (Fin 7.5 <= y p <= Fin 52.5)%js /\
  (Fin (-150) <= z p <= Fin 150)%js.
Proof.
  cbv zeta. rewrite getPointAt_eq. cbn [fst snd deref vector xyz].
  rewrite positionAt_rollerCoaster. cbn [x y z le].
  pose proof (pathX_bound t). pose proof (pathY_bound t).
  pose proof (pathZ_bound t). lra.
Qed.

Lemma rem_one_wrap (r : R) : (1 <= r < 2)%R -> (Fin r mod Fin 1)%js = Fin (r - 1).
Proof.
  intros Hr. unfold rem.
  destruct (Req_dec_T 1 0) as [H|_]; [lra|].
  replace (r / 1)%R with r by field.
  unfold Rtrunc. destruct (Rle_dec 0 r) as [_|H]; [|lra].
  destruct (Int_part_frac_part_spec r 1 (r - 1)) as [<- _]; [lra|simpl; ring|].
  f_equal. simpl. ring.
Qed.




(** X3.  Within the velocity range, one frame changes the velocity by
    less than 0.00007: the slope term is at most GRAVITY_FACTOR *
    FIXED_DELTA_TIME = 0.000048 in size because the tangent has length at
    most 1, damping removes at most 0.5 percent, and clamping only moves
    the result towards the range. *)
Theorem velocity_changes_slowly (w : World) (cam : Object3D)
        (c : ParametricCurve) (r : WebGLRenderer) (p v : R) :
  camera w = Some cam -> curve w = Some c -> renderer w = Some r ->
  finitePath (xyz c) ->
  progress w = Fin p -> velocity w = Fin v ->
  (0.00005 <= v <= 0.004)%R ->
  exists w' v',
    animate w = Ok tt w' /\ velocity w' = Fin v' /\
    (- 0.00007 <= v' - v <= 0.00007)%R.
Proof.
  intros Hcam Hc Hr Hf Hp Hv Hrange.
  destruct (animate_eq w cam c r Hcam Hc Hr) as (w' & E & _ & Hv' & _).
  rewrite Hp, Hv in Hv'. cbn [add] in Hv'.
  destruct (rem_one_finite (p + v)) as (q & Hq). rewrite Hq in Hv'.
  destruct (tangentAt_components _ q Hf) as (tx & ty & tz & ET & Hn).
  rewrite ET in Hv'. cbn [y neg mul add] in Hv'.
  unfold CONFIG.MIN_VELOCITY, CONFIG.MAX_VELOCITY, CONFIG.GRAVITY_FACTOR,
    CONFIG.FIXED_DELTA_TIME, CONFIG.VELOCITY_DAMPING in Hv'.
  cbn [mul add Math_max Math_min] in Hv'.
  assert (-1 <= ty <= 1)%R by nra.
  eexists w', _. split; [exact E|]. split; [exact Hv'|].
  set (e := ((v + - ty * 0.000003 * 16) * 0.995)%R).
  assert (- 0.00007 <= e - v <= 0.00007)%R by (unfold e; lra).
  unfold Rmax, Rmin.
  destruct (Rle_dec 0.004 e); destruct (Rle_dec 0.00005 _); lra.
Qed.

Lemma velocity_changes_slowly_witness :
  exists w' v',
    animate initializedWorld = Ok tt w' /\ velocity w' = Fin v' /\
    (- 0.00007 <= v' - 0.0002 <= 0.00007)%R.
Proof.
  apply (velocity_changes_slowly initializedWorld _ _ _ 0 0.0002
           eq_refl eq_refl eq_refl rollerCoaster_finitePath eq_refl eq_refl).
  lra.
Defined.

(** X4.  With a progress in [0,1) and a velocity in [0,1), a frame adds
    the velocity to the progress and subtracts 1 exactly when the sum
    reaches 1: the progress wraps at most once and never jumps. *)
Theorem progress_advances_by_velocity (w : World) (cam : Object3D)
        (c : ParametricCurve) (r : WebGLRenderer) (p v : R) :
  camera w = Some cam -> curve w = Some c -> renderer w = Some r ->
  progress w = Fin p -> velocity w = Fin v ->
  (0 <= p < 1)%R -> (0 <= v < 1)%R ->
  exists w',
    animate w = Ok tt w' /\
    ((p + v < 1)%R -> progress w' = Fin (p + v)) /\
    ((1 <= p + v)%R -> progress w' = Fin (p + v - 1)).
Proof.
  intros Hcam Hc Hr Hp Hv Hp01 Hv01.
  destruct (animate_eq w cam c r Hcam Hc Hr) as (w' & E & Hp' & _).
  rewrite Hp, Hv in Hp'. cbn [add] in Hp'.
  exists w'. split; [exact E|]. split; intros H; rewrite Hp'.
  - apply rem_one_small. lra.
  - apply rem_one_wrap. lra.
Qed.

Lemma progress_advances_by_velocity_witness :
  exists w',
    animate (set_progress (Fin 0.999) initializedWorld) = Ok tt w' /\
    progress w' = Fin (0.999 + 0.0002).
Proof.
  destruct (progress_advances_by_velocity
              (set_progress (Fin 0.999) initializedWorld) _ _ _ 0.999 0.0002
              eq_refl eq_refl eq_refl eq_refl eq_refl)
    as (w' & E & H & _); [lra|lra|].
  exists w'. split; [exact E|]. apply H. lra.
Defined.

(* ================================================================== *)
(** * The vehicle's basis *)
(* ================================================================== *)

Section Basis.
Local Open Scope R_scope.

Lemma normalize_nonzero (a b c : R) :
  a * a + b * b + c * c <> 0 ->
  exists k,
    0 < k /\
    normalize (mkVector3 (Fin a) (Fin b) (Fin c))
    = mkVector3 (Fin (a * k)) (Fin (b * k)) (Fin (c * k)) /\
    k * k * (a * a + b * b + c * c) = 1.
Proof.
  intros NZ. destruct (normalize_Fin a b c) as (k & Hk & E & _ & H1).
  exists k. split; [assumption|]. split; [assumption|].
  specialize (H1 NZ).
  assert (HS : 0 <= a * a + b * b + c * c) by apply sumsq_nonneg.
  pose proof (sqrt_sqrt _ HS) as Hq.
  set (S := a * a + b * b + c * c) in *. set (q := sqrt S) in *.
  rewrite <- Hq. replace (k * k * (q * q)) with ((k * q) * (k * q)) by ring.
  rewrite H1. ring.
Qed.

(** The basis built in [updateCarPosition] from a tangent that is not
    parallel to the world's up axis. *)
Lemma carBasis_orthonormal (a b c : R) :
  a * a + c * c <> 0 ->
  let forward := normalize (clone (mkVector3 (Fin a) (Fin b) (Fin c))) in
  let right := normalize (crossVectors newVector3 (mkVector3 0 1 0) forward) in
  let carUp := normalize (crossVectors newVector3 forward right) in
  orthonormal (makeBasis right carUp forward) /\
  y right = Fin 0 /\ (Fin 0 < y carUp)%js.
Proof.
  intros Hac forward right carUp.
  assert (NZ : a * a + b * b + c * c <> 0) by nra.
  destruct (normalize_nonzero a b c NZ) as (k1 & Hk1 & E1 & U1).
  assert (Ef : forward = mkVector3 (Fin (a * k1)) (Fin (b * k1)) (Fin (c * k1)))
    by exact E1.
  set (fa := a * k1) in *. set (fb := b * k1) in *. set (fc := c * k1) in *.
  assert (Hf : fa * fa + fb * fb + fc * fc = 1) by (unfold fa, fb, fc; nra).
  assert (Hfac : fa * fa + fc * fc <> 0).
  { unfold fa, fc. intros H.
    assert (k1 * k1 * (a * a + c * c) = 0) by nra.
    assert (0 < k1 * k1) by nra. nra. }
  (* right *)
  set (ra := 1 * fc + - (0 * fb)). set (rb := 0 * fa + - (0 * fc)).
  set (rc := 0 * fb + - (1 * fa)).
  assert (NZr : ra * ra + rb * rb + rc * rc <> 0) by (unfold ra, rb, rc; nra).
  destruct (normalize_nonzero ra rb rc NZr) as (k2 & Hk2 & E2 & U2).
  assert (Er : right = mkVector3 (Fin (ra * k2)) (Fin (rb * k2)) (Fin (rc * k2))).
  { subst right. rewrite Ef. exact E2. }
  set (Ra := ra * k2) in *. set (Rb := rb * k2) in *. set (Rc := rc * k2) in *.
  assert (HR : Ra * Ra + Rb * Rb + Rc * Rc = 1) by (unfold Ra, Rb, Rc; nra).
  assert (HRb : Rb = 0) by (unfold Rb, rb; ring).
  assert (HRf : Ra * fa + Rb * fb + Rc * fc = 0)
    by (unfold Ra, Rb, Rc, ra, rb, rc; ring).
  (* carUp *)
  set (ua := fb * Rc + - (fc * Rb)). set (ub := fc * Ra + - (fa * Rc)).
  set (uc := fa * Rb + - (fb * Ra)).
  assert (HU : ua * ua + ub * ub + uc * uc = 1).
  { replace (ua * ua + ub * ub + uc * uc)
      with ((fa * fa + fb * fb + fc * fc) * (Ra * Ra + Rb * Rb + Rc * Rc)
            - (Ra * fa + Rb * fb + Rc * fc) * (Ra * fa + Rb * fb + Rc * fc))
      by (unfold ua, ub, uc; ring).
    rewrite Hf, HR, HRf. ring. }
  assert (NZu : ua * ua + ub * ub + uc * uc <> 0) by lra.
  destruct (normalize_nonzero ua ub uc NZu) as (k3 & Hk3 & E3 & U3).
  assert (Hk3one : k3 = 1) by (rewrite HU in U3; nra).
  assert (Eu : carUp = mkVector3 (Fin ua) (Fin ub) (Fin uc)).
  { subst carUp. rewrite Ef, Er.
    change (crossVectors newVector3 (mkVector3 (Fin fa) (Fin fb) (Fin fc))
              (mkVector3 (Fin Ra) (Fin Rb) (Fin Rc)))
      with (mkVector3 (Fin ua) (Fin ub) (Fin uc)).
    rewrite E3, Hk3one. f_equal; f_equal; ring. }
  assert (Hub : 0 < ub).
  { unfold ub, Ra, Rc, ra, rc.
    replace (fc * ((1 * fc + - (0 * fb)) * k2) + - (fa * ((0 * fb + - (1 * fa)) * k2)))
      with (k2 * (fa * fa + fc * fc)) by ring.
    apply Rmult_lt_0_compat; [assumption|]. nra. }
  unfold orthonormal, makeBasis. cbn [xAxis yAxis zAxis].
  rewrite Ef, Er, Eu. rewrite !length_Fin. unfold dot, crossVectors.
  cbn [x y z mul add sub neg lt].
  rewrite Hf, HR, HU, sqrt_1.
  repeat split; try reflexivity; try assumption.
  - f_equal. unfold ua, ub, uc. rewrite HRb. ring_simplify.
    replace (Ra * fb * Rc - Ra * Rc * fb) with 0 by ring. reflexivity.
  - f_equal. lra.
  - f_equal. unfold ua, ub, uc. ring.
  - f_equal.
    + f_equal.
      replace (Rb * uc + - (Rc * ub))
        with (fa * (Ra * Ra + Rb * Rb + Rc * Rc)
              - Ra * (Ra * fa + Rb * fb + Rc * fc)) by (unfold ua, ub, uc; ring).
      rewrite HR, HRf. ring.
    + f_equal.
      replace (Rc * ua + - (Ra * uc))
        with (fb * (Ra * Ra + Rb * Rb + Rc * Rc)
              - Rb * (Ra * fa + Rb * fb + Rc * fc)) by (unfold ua, ub, uc; ring).
      rewrite HR, HRf. ring.
    + f_equal.
      replace (Ra * ub + - (Rb * ua))
        with (fc * (Ra * Ra + Rb * Rb + Rc * Rc)
              - Rc * (Ra * fa + Rb * fb + Rc * fc)) by (unfold ua, ub, uc; ring).
      rewrite HR, HRf. ring.
  - f_equal. exact HRb.
Qed.

End Basis.

Lemma carBasis_vertical (b : R) :
  let forward := normalize (clone (mkVector3 (Fin 0) (Fin b) (Fin 0))) in
  let right := normalize (crossVectors newVector3 (mkVector3 0%R 1%R 0%R) forward) in
  let carUp := normalize (crossVectors newVector3 forward right) in
  right = zeroV /\ carUp = zeroV.
Proof.
  intros forward right carUp.
  destruct (normalize_Fin 0 b 0) as (k & _ & E & _).
  assert (Ef : forward = mkVector3 (Fin (0 * k)) (Fin (b * k)) (Fin (0 * k)))
    by exact E.
  assert (Er : right = zeroV).
  { subst right. rewrite Ef.
    replace (crossVectors newVector3 (mkVector3 0%R 1%R 0%R)
               (mkVector3 (Fin (0 * k)) (Fin (b * k)) (Fin (0 * k))))
      with zeroV
      by (unfold zeroV, crossVectors; cbn [x y z mul sub add neg];
          f_equal; f_equal; ring).
    apply normalize_zero. }
  split; [exact Er|].
  subst carUp. rewrite Er, Ef.
  replace (crossVectors newVector3
             (mkVector3 (Fin (0 * k)) (Fin (b * k)) (Fin (0 * k))) zeroV)
    with zeroV
    by (unfold zeroV, crossVectors; cbn [x y z mul sub add neg];
        f_equal; f_equal; ring).
  apply normalize_zero.
Qed.

(** X5.  When the vehicle is loaded and the sampled tangent is not
    parallel to the world's up axis, [updateCarPosition] gives the vehicle
    a proper rotation: the three axes are unit vectors, pairwise
    orthogonal and right-handed, the right axis is horizontal and the up
    axis points upwards.  When the tangent is vertical, the right and up
    axes are zero vectors and the matrix is singular. *)
Theorem vehicle_basis_is_rotation (w : World) (car : Object3D)
        (c : ParametricCurve) (p : R) :
  carModel w = Some car -> curve w = Some c -> finitePath (xyz c) ->
  progress w = Fin p ->
  let T := tangentAt (xyz c) (Fin p) in
  exists w' car' m,
    updateCarPosition w = Ok tt w' /\ carModel w' = Some car' /\
    rotation car' = Some m /\
    (x T <> Fin 0 \/ z T <> Fin 0 ->
     orthonormal m /\ y (xAxis m) = Fin 0 /\ (Fin 0 < y (yAxis m))%js) /\
    (x T = Fin 0 /\ z T = Fin 0 -> xAxis m = zeroV /\ yAxis m = zeroV).
Proof.
  intros Hcar Hc Hf Hp T.
  pose proof (updateCarPosition_eq w car c Hcar Hc) as E. cbv zeta in E.
  rewrite Hp in E. fold T in E.
  assert (HT : finiteV T) by (apply tangentAt_finiteV; assumption).
  pose proof (carBasis_finiteM T HT) as HM. cbv zeta in HM.
  destruct (finiteV_inv _ HT) as (a & b & c0 & ET).
  eexists _, _, _. split; [exact E|]. world_fields. split; [reflexivity|].
  erewrite rotateY_zero; [|reflexivity|exact HM]. cbn [rotation].
  split; [reflexivity|]. rewrite ET. cbn [x z]. split.
  - intros Hne. apply carBasis_orthonormal.
    intros H0. assert (a = 0 /\ c0 = 0)%R as [-> ->] by (split; nra).
    destruct Hne as [Hne|Hne]; apply Hne; reflexivity.
  - intros [Ha Hc0]. injection Ha as ->. injection Hc0 as ->.
    apply carBasis_vertical.
Qed.

(** The source's curve at progress 0, vehicle loaded: the tangent has a
    positive z component. *)
Lemma vehicle_basis_is_rotation_witness :
  exists w' car' m,
    updateCarPosition (set_carModel (Some newObject3D) initializedWorld)
    = Ok tt w' /\
    carModel w' = Some car' /\ rotation car' = Some m /\ orthonormal m.
Proof.
  destruct (vehicle_basis_is_rotation
              (set_carModel (Some newObject3D) initializedWorld)
              newObject3D createParametricCurve 0
              eq_refl eq_refl rollerCoaster_finitePath eq_refl)
    as (w' & car' & m & E & Hcar & Hrot & H & _).
  exists w', car', m. repeat (split; [assumption|]).
  apply H. right. cbn [xyz createParametricCurve].
  pose proof (tangent_z_after_seam 0) as Hz.
  destruct (z (tangentAt rollerCoasterXYZ (Fin 0))) as [zr| |];
    cbn [lt] in Hz; try (exfalso; apply Hz; lra); try discriminate.
  intros Heq. injection Heq as ->.
  assert (0 <= 0 <= 0.0001)%R as H0 by lra. specialize (Hz H0). lra.
Defined.

(* ================================================================== *)
(** * Steering does not reach the simulation *)
(* ================================================================== *)





(* ================================================================== *)
(** * Life cycle of the service *)
(* ================================================================== *)

Lemma animate_without_curve (w : World) : curve w = None -> animate w = TypeError.
Proof.
  destruct w; world_fields. intros ->.
  unfold animate, requestAnimationFrame, updateCameraPosition. run_monad.
  reflexivity.
Qed.

Lemma animate_without_camera (w : World) (c : ParametricCurve) :
  curve w = Some c -> camera w = None -> animate w = TypeError.
Proof.
  destruct w; world_fields. intros -> ->.
  unfold animate, requestAnimationFrame, updateCameraPosition. run_monad.
  rewrite getPointAt_eq. run_monad. rewrite getTangentAt_eq. run_monad.
  reflexivity.
Qed.

Lemma animate_without_renderer (w : World) (cam : Object3D) (c : ParametricCurve) :
  camera w = Some cam -> curve w = Some c -> renderer w = None ->
  animate w = TypeError.
Proof.
  destruct w; world_fields. intros -> -> ->.
  unfold animate, requestAnimationFrame. run_monad.
  match goal with
  | |- context [updateCameraPosition ?w0] =>
      pose proof (updateCameraPosition_eq w0 cam c eq_refl eq_refl) as E;
      cbv zeta in E; world_fields; rewrite E; clear E
  end.
  world_fields.
  destruct carModel0 as [car|].
  - match goal with
    | |- context [updateCarPosition ?w0] =>
        pose proof (updateCarPosition_eq w0 car _ eq_refl eq_refl) as E;
        cbv zeta in E; world_fields; cbn [xyz] in E; rewrite E; clear E
    end.
    world_fields. destruct mixer0; run_monad; reflexivity.
  - rewrite updateCarPosition_absent by reflexivity.
    destruct mixer0; run_monad; reflexivity.
Qed.

(** X7.  A frame completes exactly when the camera, the curve and the
    renderer exist; otherwise it throws.  In particular [start] called on
    a service that was never initialised throws a TypeError. *)
Theorem animate_needs_initialize (w : World) :
  ((exists w', animate w = Ok tt w') <->
   camera w <> None /\ curve w <> None /\ renderer w <> None) /\
  start newAnimationService = TypeError.
Proof.
  split; [split|].
  - intros (w' & E).
    destruct (curve w) as [c|] eqn:Hc;
      [|rewrite animate_without_curve in E by assumption; discriminate].
    destruct (camera w) as [cam|] eqn:Hcam;
      [|rewrite (animate_without_camera w c) in E by assumption; discriminate].
    destruct (renderer w) as [r|] eqn:Hr;
      [|rewrite (animate_without_renderer w cam c) in E by assumption;
        discriminate].
    repeat split; discriminate.
  - intros (Hcam & Hc & Hr).
    destruct (camera w) as [cam|] eqn:Ecam; [|contradiction].
    destruct (curve w) as [c|] eqn:Ec; [|contradiction].
    destruct (renderer w) as [r|] eqn:Er; [|contradiction].
    destruct (animate_eq w cam c r Ecam Ec Er) as (w' & E & _). eauto.
  - apply animate_without_curve. reflexivity.
Qed.

Lemma animate_drawn (w : World) (r : WebGLRenderer) (k : nat) :
  (exists cam, camera w = Some cam) ->
  (exists c, curve w = Some c /\ xyz c = rollerCoasterXYZ) ->
  renderer w = Some r -> framesRendered r = k ->
  disposed r = false -> contextLost r = false ->
  (exists s, scene w = Some s) ->
  rafPending w = [] -> rafNext w = S k ->
  geometries w = theGeometries -> materials w = theMaterials -> released w = [] ->
  exists w', animate w = Ok tt w' /\ drawn (S k) w'.
Proof.
  intros Hcam Hc Hr Hk Hd Hl Hs Hp Hn Hg Hm Hrel.
  destruct (animate_live w) as (w' & E & Hlive & _); try assumption.
  { eauto. } { rewrite Hn. discriminate. }
  destruct Hcam as (cam & Hcam). destruct Hc as (c & Hc & _).
  destruct (animate_eq w cam c r Hcam Hc Hr)
    as (w'' & E' & _ & _ & _ & _ & Hr' & _ & _ & _ & Hid & _ & Hn' & _).
  rewrite E in E'. injection E' as <-.
  exists w'. split; [exact E|]. split; [exact Hlive|].
  split; [congruence|]. split; [congruence|].
  exists (render r). split; [exact Hr'|].
  destruct r; cbn in *. repeat split; congruence.
Qed.

Lemma handle_drawn (e : Event) (k : nat) (w : World) :
  drawn k w ->
  exists w', handle e w = Ok tt w' /\ drawn (frameCount [e] + k) w'.
Proof.
  intros (Hlive & Hid & Hn & r & Hr & Hk & Hd & Hl).
  destruct e as [|v|o a|].
  - destruct Hlive as (Hcam & Hc & _ & Hs & _ & Hp & _ & Hg & Hm & Hrel).
    destruct (animate_drawn (set_rafPending [] w) r k) as (w' & E & H');
      try (destruct w; assumption); try (destruct w; reflexivity).
    exists w'. split; [|exact H'].
    cbn [handle]. apply (runFrame_eq w w' (animationId w)); assumption.
  - eexists. split; [reflexivity|]. cbn [frameCount Nat.add].
    destruct w; split; [exact Hlive|]. repeat split; try assumption.
    exists r. repeat split; assumption.
  - destruct (handle_live (ModelLoaded o a) w Hlive) as (w' & E & Hlive').
    exists w'. split; [exact E|]. cbn [frameCount Nat.add].
    split; [exact Hlive'|].
    destruct Hlive as (_ & _ & _ & (s & Hs) & _).
    destruct w as [sc cam rd id p v cv car mx ms gs mats pend nxt ld rel].
    cbn [scene animationId rafNext renderer] in *. subst.
    revert E. cbn [handle]. run_monad. destruct ld.
    + unfold onCarLoaded, sceneAdd. destruct a; run_monad;
        intros E; injection E as <-; world_fields;
        (split; [reflexivity|]); (split; [reflexivity|]);
        exists r; repeat split; assumption.
    + intros E; injection E as <-; world_fields.
      split; [reflexivity|]. split; [reflexivity|].
      exists r. repeat split; assumption.
  - eexists. split; [reflexivity|]. cbn [frameCount Nat.add].
    destruct w; split; [exact Hlive|]. repeat split; try assumption.
    exists r. repeat split; assumption.
Qed.

Lemma frameCount_cons (e : Event) (l : list Event) :
  frameCount (e :: l) = frameCount [e] + frameCount l.
Proof. destruct e; reflexivity. Qed.

Lemma run_drawn (events : list Event) (k : nat) (w : World) :
  drawn k w ->
  exists w', run events w = Ok tt w' /\ drawn (frameCount events + k) w'.
Proof.
  revert k w. induction events as [|e l IH]; intros k w Hw.
  - exists w. split; [reflexivity|exact Hw].
  - destruct (handle_drawn e k w Hw) as (w1 & E1 & H1).
    destruct (IH _ w1 H1) as (w' & E' & H').
    exists w'. split.
    + unfold run. cbn [forEach]. unfold bind at 1. rewrite E1. exact E'.
    + rewrite frameCount_cons.
      replace (frameCount [e] + frameCount l + k)
        with (frameCount l + (frameCount [e] + k)) by lia.
      exact H'.
Qed.

(** X8.  One frame is drawn per animation frame, none skipped and none
    doubled: after [initialize], [start] and any events of which k are
    animation frames, the renderer has drawn k + 1 frames ([start] draws
    the first one itself) and exactly one request is pending, under the
    handle kept in [animationId]. *)
Theorem one_render_per_frame (sampling : Geometry -> list CurveCall)
        (events : list Event) :
  exists w r,
    exec (initialize sampling ;; start ;; run events) newAnimationService = Some w /\
    renderer w = Some r /\
    framesRendered r = S (frameCount events) /\
    rafPending w = [animationId w].
Proof.
  destruct (initialize_ok sampling) as (c0 & E0 & X0).
  destruct (animate_drawn (set_curve (Some c0) initializedWorld)
              (mkRenderer false false 0) 0)
    as (w0 & E & H0); try reflexivity; try (eexists; reflexivity).
  { exists c0. split; [reflexivity|assumption]. }
  destruct (run_drawn events 1 w0 H0) as (w & Er & Hl & Hid & Hn & r & Hr & Hk & _).
  assert (Es : (initialize sampling ;; start) newAnimationService = Ok tt w0).
  { unfold bind. rewrite E0. exact E. }
  exists w, r. rewrite (exec_seq _ _ _ _ w0 Es). unfold exec. rewrite Er.
  replace (frameCount events + 1) with (S (frameCount events)) in * by lia.
  split; [reflexivity|]. split; [exact Hr|]. split; [exact Hk|].
  destruct Hl as (_ & _ & _ & _ & _ & Hp & _). exact Hp.
Qed.

Lemma runFrame_keeps_absent (w : World) :
  live w -> carModel w = None -> mixer w = None ->
  exists w', runFrame w = Ok tt w' /\ live w' /\ carModel w' = None /\
             mixer w' = None /\ loaderPending w' = loaderPending w.
Proof.
  intros Hlive Hcar Hmix.
  destruct (runFrame_live w Hlive) as (w' & E & Hlive' & Hld).
  exists w'. split; [exact E|]. split; [exact Hlive'|].
  destruct Hlive as ((cam & Hcam) & (c & Hc & _) & (r & Hr) & _ & _ & Hp & _).
  destruct (animate_eq (set_rafPending [] w) cam c r)
    as (w'' & E' & _ & _ & _ & _ & _ & Hcar' & Hmix' & _);
    try (destruct w; assumption).
  rewrite (runFrame_eq w w'' (animationId w) Hp E') in E. injection E as <-.
  replace (carModel (set_rafPending [] w)) with (carModel w) in Hcar'
    by (destruct w; reflexivity).
  replace (mixer (set_rafPending [] w)) with (mixer w) in Hmix'
    by (destruct w; reflexivity).
  rewrite Hcar in Hcar'. rewrite Hmix in Hmix'. repeat split; assumption.
Qed.

Lemma handle_waiting (e : Event) (w : World) :
  noLoaderEvent e -> waiting w -> exists w', handle e w = Ok tt w' /\ waiting w'.
Proof.
  intros He (Hlive & Hcar & Hmix & Hld). destruct e as [|v|o a|]; try contradiction.
  - destruct (runFrame_keeps_absent w Hlive Hcar Hmix)
      as (w' & E & Hl' & Hc' & Hm' & Hld').
    exists w'. split; [exact E|].
    split; [exact Hl'|]. split; [exact Hc'|]. split; [exact Hm'|congruence].
  - eexists. split; [reflexivity|]. destruct w.
    split; [exact Hlive|]. split; [exact Hcar|]. split; assumption.
Qed.

Lemma run_waiting (events : list Event) (w : World) :
  Forall noLoaderEvent events -> waiting w ->
  exists w', run events w = Ok tt w' /\ waiting w'.
Proof.
  intros Hev. revert w. induction Hev as [|e l He _ IH]; intros w Hw.
  - exists w. split; [reflexivity|exact Hw].
  - destruct (handle_waiting e w He Hw) as (w1 & E1 & H1).
    destruct (IH w1 H1) as (w' & E' & H').
    exists w'. split; [|exact H'].
    unfold run. cbn [forEach]. unfold bind at 1. rewrite E1. exact E'.
Qed.

Lemma handle_carless (e : Event) (w : World) :
  carless w -> exists w', handle e w = Ok tt w' /\ carless w'.
Proof.
  intros (Hlive & Hcar & Hmix & Hld). destruct e as [|v|o a|].
  - destruct (runFrame_keeps_absent w Hlive Hcar Hmix)
      as (w' & E & Hl' & Hc' & Hm' & Hld').
    exists w'. split; [exact E|].
    split; [exact Hl'|]. split; [exact Hc'|]. split; [exact Hm'|congruence].
  - eexists. split; [reflexivity|]. destruct w.
    split; [exact Hlive|]. split; [exact Hcar|]. split; assumption.
  - exists w. split; [|split; [exact Hlive|split; [exact Hcar|split; assumption]]].
    cbn [handle]. unfold bind, gets. rewrite Hld. reflexivity.
  - eexists. split; [reflexivity|]. destruct w.
    split; [exact Hlive|]. split; [exact Hcar|]. split; [exact Hmix|reflexivity].
Qed.

Lemma run_carless (events : list Event) (w : World) :
  carless w -> exists w', run events w = Ok tt w' /\ carless w'.
Proof.
  revert w. induction events as [|e l IH]; intros w Hw.
  - exists w. split; [reflexivity|exact Hw].
  - destruct (handle_carless e w Hw) as (w1 & E1 & H1).
    destruct (IH w1 H1) as (w' & E' & H').
    exists w'. split; [|exact H'].
    unfold run. cbn [forEach]. unfold bind at 1. rewrite E1. exact E'.
Qed.

Lemma start_waiting (sampling : Geometry -> list CurveCall) :
  exists w, (initialize sampling ;; start) newAnimationService = Ok tt w /\
            waiting w.
Proof.
  destruct (initialize_ok sampling) as (c0 & E0 & X0).
  destruct (animate_live (set_curve (Some c0) initializedWorld))
    as (w & E & Hl & Hld); try reflexivity; try (eexists; reflexivity).
  - exists c0. split; [reflexivity|assumption].
  - cbn. discriminate.
  - destruct (animate_eq (set_curve (Some c0) initializedWorld) _ c0 _
                eq_refl eq_refl eq_refl)
      as (w' & E' & _ & _ & _ & _ & _ & Hcar & Hmix & _).
    rewrite E in E'. injection E' as <-.
    exists w. unfold bind. rewrite E0. split; [exact E|].
    split; [exact Hl|]. split; [exact Hcar|]. split; [exact Hmix|exact Hld].
Qed.

Lemma run_app (l1 l2 : list Event) (w w1 : World) :
  run l1 w = Ok tt w1 -> run (l1 ++ l2) w = run l2 w1.
Proof.
  revert w. induction l1 as [|e l IH]; intros w E.
  - cbn in E. injection E as <-. reflexivity.
  - unfold run in *. cbn [forEach app] in *. unfold bind in *.
    destruct (handle e w) as [[] w0|]; [|discriminate]. apply IH. exact E.
Qed.

(** X9.  A failed model load is not fatal.  If the loader reports an
    error before it delivered a model, then whatever happens later (frames,
    drags, even a late delivery) every event completes, the service stays
    live with one frame pending, and it never has a vehicle or a mixer:
    the ride goes on with the camera only. *)
Theorem load_error_degrades (sampling : Geometry -> list CurveCall)
        (before later : list Event) :
  Forall noLoaderEvent before ->
  exists w,
    exec (initialize sampling ;; start ;; run (before ++ ModelError :: later))
         newAnimationService = Some w /\
    live w /\ carModel w = None /\ mixer w = None.
Proof.
  intros Hb.
  destruct (start_waiting sampling) as (w0 & E0 & H0).
  destruct (run_waiting before w0 Hb H0) as (w1 & E1 & Hl1 & Hc1 & Hm1 & _).
  assert (H2 : carless (set_loaderPending false w1)).
  { destruct w1. split; [exact Hl1|]. split; [exact Hc1|].
    split; [exact Hm1|reflexivity]. }
  destruct (run_carless later _ H2) as (w & E & Hl & Hc & Hm & _).
  exists w. rewrite (exec_seq _ _ _ _ w0 E0). unfold exec.
  rewrite (run_app before _ w0 w1 E1).
  unfold run. cbn [forEach handle]. unfold bind at 1. unfold modify at 1.
  fold (run later). rewrite E.
  split; [reflexivity|]. split; [exact Hl|]. split; assumption.
Qed.

(** Two frames and a drag, then the error, then a late delivery. *)
Lemma load_error_degrades_witness :
  exists w,
    exec (initialize (fun _ => []) ;; start ;;
          run ([Frame; MouseDrag (Fin 0.3); Frame] ++
               ModelError :: [Frame; ModelLoaded newObject3D true; Frame]))
         newAnimationService = Some w /\
    live w /\ carModel w = None /\ mixer w = None.
Proof.
  apply load_error_degrades. repeat constructor.
Defined.

Lemma dispose_keeps (w w1 : World) :
  dispose w = Ok tt w1 ->
  progress w1 = progress w /\ velocity w1 = velocity w /\
  mouseX w1 = mouseX w /\ carModel w1 = carModel w /\ mixer w1 = mixer w /\
  loaderPending w1 = loaderPending w /\ curve w1 = curve w /\
  camera w1 = camera w /\ rafNext w1 = rafNext w /\
  renderer w1 = match renderer w with
                | Some r => Some (forceContextLoss (rendererDispose r))
                | None => None
                end.
Proof.
  destruct w as [sc cam rd id p v cv car mx ms gs mats pend nxt ld rel].
  unfold dispose, cancelAnimationFrame. world_fields.
  destruct id as [|id]; destruct rd as [rd|]; destruct sc as [sc|];
    run_monad; cbn [Nat.eqb]; run_monad;
    intros E; injection E as <-; world_fields; repeat split.
Qed.

(** X10.  [dispose] does not call off the model load.  If the model is
    delivered after [dispose], the callback still runs: it stores the
    vehicle, scales it and adds it to the scene that [dispose] had just
    emptied, where it is the only child.  No frame is requested, and the
    vehicle is not among the released resources. *)
Theorem late_load_after_dispose (sampling : Geometry -> list CurveCall)
        (before : list Event) (o : Object3D) (a : bool) :
  Forall noLoaderEvent before ->
  exists w,
    exec (initialize sampling ;; start ;; run before ;; dispose ;;
          handle (ModelLoaded o a)) newAnimationService = Some w /\
    scene w = Some [CarModel] /\
    carModel w = Some (set_scale (mkVector3 0.05%R 0.05%R 0.05%R) o) /\
    rafPending w = [] /\
    released w = (map RGeometry theGeometries ++ map RMaterial theMaterials)%list.
Proof.
  intros Hb.
  destruct (start_waiting sampling) as (w0 & E0 & H0).
  destruct (run_waiting before w0 Hb H0) as (w1 & E1 & Hl1 & _ & _ & Hld1).
  destruct (dispose_twice w1) as (w2 & D & _ & _ & _ & _ & Hrel & Hp & Hs).
  destruct (dispose_keeps w1 w2 D) as (_ & _ & _ & _ & _ & Hld2 & _).
  destruct Hl1 as (_ & _ & _ & (s & Hs1) & Hid & Hpend & _ & Hg & Hm & Hrel1).
  rewrite Hs1 in Hs. rewrite Hrel1, Hg, Hm in Hrel. rewrite Hpend in Hp.
  assert (Hp2 : rafPending w2 = []).
  { rewrite Hp. destruct (Nat.eqb_spec (animationId w1) 0); [contradiction|].
    cbn [remove]. destruct (Nat.eq_dec (animationId w1) (animationId w1));
      [reflexivity|contradiction]. }
  assert (Hld : loaderPending w2 = true) by congruence.
  destruct (handle_ModelLoaded_eq o a w2 [] Hld Hs)
    as (w & E & Hcar & _ & _ & _ & _ & _ & Hp3 & _).
  exists w. rewrite (exec_seq _ _ _ _ w0 E0). unfold exec, bind.
  rewrite E1, D, E.
  split; [reflexivity|]. split; [|split; [exact Hcar|split; [congruence|]]].
  - revert E. clear - Hs Hld.
    destruct w2 as [sc cam rd id p v cv car mx ms gs mats pend nxt ld rel].
    cbn [scene loaderPending] in Hs, Hld. subst.
    cbn [handle]. unfold onCarLoaded, sceneAdd. run_monad.
    destruct a; run_monad; intros E; injection E as <-; reflexivity.
  - revert E. clear - Hs Hld Hrel.
    destruct w2 as [sc cam rd id p v cv car mx ms gs mats pend nxt ld rel].
    cbn [scene loaderPending released] in Hs, Hld, Hrel. subst.
    cbn [handle]. unfold onCarLoaded, sceneAdd. run_monad.
    destruct a; run_monad; intros E; injection E as <-; reflexivity.
Qed.

(** Disposed after two frames, the model arrives late. *)
Lemma late_load_after_dispose_witness :
  exists w,
    exec (initialize (fun _ => []) ;; start ;; run [Frame; Frame] ;; dispose ;;
          handle (ModelLoaded newObject3D false)) newAnimationService = Some w /\
    scene w = Some [CarModel].
Proof.
  destruct (late_load_after_dispose (fun _ => []) [Frame; Frame] newObject3D false)
    as (w & E & Hs & _).
  - repeat constructor.
  - exists w. split; assumption.
Defined.

Lemma initialize_any (sampling : Geometry -> list CurveCall) (w : World) :
  exists c0,
    initialize sampling w
    = Ok tt (mkWorld (scene initializedWorld) (camera initializedWorld)
                     (renderer initializedWorld) (animationId w)
                     (progress w) (velocity w) (Some c0) (carModel w)
                     (mixer w) (mouseX w)
                     (geometries w ++ theGeometries)
                     (materials w ++ theMaterials)
                     (rafPending w) (rafNext w) true (released w)) /\
    xyz c0 = rollerCoasterXYZ.
Proof.
  destruct w as [sc cam rd id p v cv car mx ms gs mats pend nxt ld rel].
  unfold initialize, createLighting, createTrack, createGround, loadCarModel,
    sceneAdd, pushGeometry, pushMaterial.
  run_monad. cbn [app].
  match goal with
  | |- context [sampleCurve ?l ?w0] =>
      destruct (sampleCurve_eq l w0 _ eq_refl) as (c1 & -> & X1)
  end.
  run_monad. cbn [app].
  match goal with
  | |- context [sampleCurve ?l ?w0] =>
      destruct (sampleCurve_eq l w0 _ eq_refl) as (c2 & -> & X2)
  end.
  run_monad. cbn [app].
  match goal with
  | |- context [sampleCurve ?l ?w0] =>
      destruct (sampleCurve_eq l w0 _ eq_refl) as (c3 & -> & X3)
  end.
  run_monad. cbn [app].
  exists c3. split.
  - unfold theGeometries, theMaterials. rewrite <- !app_assoc. reflexivity.
  - change (xyz c3 = rollerCoasterXYZ). rewrite X3, X2, X1. reflexivity.
Qed.

(** X11.  Neither [dispose] nor [initialize] resets the simulation.  A
    service that is disposed of and initialised again (the service is a
    singleton, the component is not) builds a new scene, camera and
    renderer, but keeps its progress, velocity and steering input, so the
    ride resumes where it stopped; it also keeps the previous vehicle and
    mixer, although the new scene does not contain that vehicle. *)
Theorem reinitialize_resumes (sampling : Geometry -> list CurveCall) (w : World) :
  exists w1 w2,
    dispose w = Ok tt w1 /\ initialize sampling w1 = Ok tt w2 /\
    progress w2 = progress w /\ velocity w2 = velocity w /\
    mouseX w2 = mouseX w /\
    carModel w2 = carModel w /\ mixer w2 = mixer w /\
    scene w2 = scene initializedWorld /\
    camera w2 = camera initializedWorld /\
    renderer w2 = renderer initializedWorld /\
    geometries w2 = theGeometries /\ materials w2 = theMaterials /\
    loaderPending w2 = true.
Proof.
  destruct (dispose_twice w) as (w1 & D & _ & _ & Hg & Hm & _).
  destruct (dispose_keeps w w1 D) as (Hp & Hv & Hx & Hcar & Hmix & _).
  destruct (initialize_any sampling w1) as (c0 & E & _).
  eexists w1, _. split; [exact D|]. split; [exact E|]. world_fields.
  rewrite Hg, Hm. repeat split; assumption.
Qed.

Lemma reachable_drawn (sampling : Geometry -> list CurveCall)
      (events : list Event) :
  exists w,
    exec (initialize sampling ;; start ;; run events) newAnimationService = Some w /\
    drawn (S (frameCount events)) w.
Proof.
  destruct (initialize_ok sampling) as (c0 & E0 & X0).
  destruct (animate_drawn (set_curve (Some c0) initializedWorld)
              (mkRenderer false false 0) 0)
    as (w0 & E & H0); try reflexivity; try (eexists; reflexivity).
  { exists c0. split; [reflexivity|assumption]. }
  destruct (run_drawn events 1 w0 H0) as (w & Er & H).
  assert (Es : (initialize sampling ;; start) newAnimationService = Ok tt w0).
  { unfold bind. rewrite E0. exact E. }
  exists w. rewrite (exec_seq _ _ _ _ w0 Es). unfold exec. rewrite Er.
  replace (frameCount events + 1) with (S (frameCount events)) in H by lia.
  split; [reflexivity|exact H].
Qed.

(** X12.  [dispose] is not final.  Called on a disposed service, [start]
    completes: it requests an animation frame again and has the renderer,
    whose context [dispose] gave up, draw another frame. *)
Theorem start_after_dispose (sampling : Geometry -> list CurveCall)
        (events : list Event) :
  exists w w1 w2 r,
    exec (initialize sampling ;; start ;; run events) newAnimationService = Some w /\
    dispose w = Ok tt w1 /\ rafPending w1 = [] /\
    start w1 = Ok tt w2 /\
    rafPending w2 = [animationId w2] /\
    renderer w2 = Some r /\ disposed r = true /\ contextLost r = true /\
    framesRendered r = S (S (frameCount events)).
Proof.
  destruct (reachable_drawn sampling events)
    as (w & E & Hlive & Hid & Hn & r & Hr & Hk & _).
  destruct (dispose_twice w) as (w1 & D & _ & _ & _ & _ & _ & Hp & _).
  destruct (dispose_keeps w w1 D)
    as (_ & _ & _ & _ & _ & _ & Hc1 & Hcam1 & Hn1 & Hr1).
  destruct Hlive as ((cam & Hcam) & (c & Hc & _) & _ & _ & Hid0 & Hpend & _).
  rewrite Hr in Hr1. rewrite Hpend in Hp.
  assert (Hp1 : rafPending w1 = []).
  { rewrite Hp. destruct (Nat.eqb_spec (animationId w) 0); [contradiction|].
    cbn [remove]. destruct (Nat.eq_dec (animationId w) (animationId w));
      [reflexivity|contradiction]. }
  destruct (animate_eq w1 cam c _ (eq_trans Hcam1 Hcam) (eq_trans Hc1 Hc) Hr1)
    as (w2 & E2 & _ & _ & _ & _ & Hr2 & _ & _ & _ & Hid2 & Hp2 & _).
  exists w, w1, w2, (render (forceContextLoss (rendererDispose r))).
  split; [exact E|]. split; [exact D|]. split; [exact Hp1|].
  split; [exact E2|]. rewrite Hp2, Hid2, Hp1.
  split; [reflexivity|]. split; [exact Hr2|].
  cbn. rewrite Hk. repeat split.
Qed.

(* ================================================================== *)
(** * The component and the window *)
(* ================================================================== *)

Lemma handle_keeps_mouseX (e : Event) (w : World) :
  live w -> (forall v, e <> MouseDrag v) ->
  exists w', handle e w = Ok tt w' /\ live w' /\ mouseX w' = mouseX w.
Proof.
  intros Hlive He.
  destruct (handle_live e w Hlive) as (w' & E & Hlive').
  exists w'. split; [exact E|]. split; [exact Hlive'|].
  destruct e as [|v|o a|].
  - destruct Hlive as ((cam & Hcam) & (c & Hc & _) & (r & Hr) & _ & _ & Hp & _).
    destruct (animate_eq (set_rafPending [] w) cam c r)
      as (w'' & E' & _ & _ & _ & _ & _ & _ & _ & Hm & _);
      try (destruct w; assumption).
    cbn [handle] in E.
    rewrite (runFrame_eq w w'' (animationId w) Hp E') in E. injection E as <-.
    rewrite Hm. destruct w; reflexivity.
  - exfalso. apply (He v). reflexivity.
  - destruct Hlive as (_ & _ & _ & (s & Hs) & _).
    destruct (loaderPending w) eqn:Hld.
    + destruct (handle_ModelLoaded_eq o a w s Hld Hs)
        as (w'' & E' & _ & _ & _ & _ & _ & _ & _ & Hm).
      rewrite E in E'. injection E' as <-. exact Hm.
    + cbn [handle] in E. unfold bind, gets in E. rewrite Hld in E.
      injection E as <-. reflexivity.
  - cbn [handle] in E. injection E as <-. destruct w; reflexivity.
Qed.

(** Mounting: [ngOnInit] on a fresh page with a canvas. *)
Lemma ngOnInit_mounts (sampling : Geometry -> list CurveCall) (w h dpr : num) :
  exists p,
    ngOnInit sampling (freshPage w h dpr true) = Done tt p /\
    mounted p /\ waiting (world p) /\ isDragging p = false /\
    mouseX (world p) = Fin 0 /\
    view p = Some (mkView (w / h)%js w h (Math_min dpr (Fin 2))) /\
    innerWidth p = w /\ innerHeight p = h /\ devicePixelRatio p = dpr /\
    consoleErrors p = 0.
Proof.
  destruct (start_waiting sampling) as (w0 & E & Hw).
  destruct (initialize_ok sampling) as (c0 & E0 & _).
  unfold bind in E. rewrite E0 in E.
  unfold ngOnInit, initializeOnPage, newClosure, addEventListener, freshPage.
  run_page. cbn [negb]. run_page. rewrite E0. run_page. rewrite E. run_page.
  cbn [existsb app sameListener EventType_eqb Nat.eqb andb orb fst snd].
  eexists. split; [reflexivity|]. run_page.
  assert (Hm : mouseX w0 = Fin 0).
  { destruct (animate_eq (set_curve (Some c0) initializedWorld) _ c0 _
                eq_refl eq_refl eq_refl)
      as (w' & E' & _ & _ & _ & _ & _ & _ & _ & Hm & _).
    unfold start in E. rewrite E in E'. injection E' as <-. exact Hm. }
  split.
  { split; [apply Hw|]. exists 0, 1, 2, 3. repeat split. }
  split; [exact Hw|]. repeat split; try reflexivity; exact Hm.
Qed.

Ltac page_fields :=
  cbn [world view innerWidth innerHeight devicePixelRatio listeners nextClosure
       consoleErrors nativeElement resizeHandler mouseMoveHandler
       mouseDownHandler mouseUpHandler isDragging].

(** What an event does to a mounted page. *)
Lemma pageStep_mounted (e : PageEvent) (p : Page) :
  mounted p ->
  exists p',
    pageStep e p = Done tt p' /\ mounted p' /\
    devicePixelRatio p' = devicePixelRatio p /\
    isDragging p' = match e with
                    | MousePressed => true
                    | MouseReleased => false
                    | _ => isDragging p
                    end /\
    mouseX (world p') = match e with
                        | MouseMoved cx =>
                            if isDragging p then (cx / innerWidth p)%js
                            else mouseX (world p)
                        | _ => mouseX (world p)
                        end /\
    view p' = match e with
              | Resized w h =>
                  Some (mkView (w / h)%js w h
                               (Math_min (devicePixelRatio p) (Fin 2)))
              | _ => view p
              end /\
    innerWidth p' = match e with Resized w _ => w | _ => innerWidth p end /\
    match e with
    | AnimationFrame | ModelDelivered _ _ | ModelFailed => True
    | _ => world p' = match e with
                      | MouseMoved cx =>
                          if isDragging p
                          then set_mouseX (cx / innerWidth p)%js (world p)
                          else world p
                      | _ => world p
                      end
    end.
Proof.
  intros (Hlive & a & b & c & d & Hls & Ha & Hb & Hc & Hd).
  destruct p as [w vw iw ih dpr ls nc ce ne rh mmh mdh muh drag].
  cbn [world listeners resizeHandler mouseMoveHandler mouseDownHandler
       mouseUpHandler] in *. subst.
  assert (Hmount : forall w' vw' iw' ih' drag',
             live w' ->
             mounted (mkPage w' vw' iw' ih' dpr
                        [(EvResize, a); (EvMouseMove, b); (EvMouseDown, c);
                         (EvMouseUp, d)] nc ce ne (Some a) (Some b) (Some c)
                        (Some d) drag')).
  { intros. split; [assumption|]. exists a, b, c, d. repeat split. }
  destruct e as [w' h'|cx| | | |o an|]; cbn [pageStep].
  - unfold dispatch, onResize. run_page.
    cbn [filter EventType_eqb fst pforEach handler]. unfold onResize. run_page.
    pose proof Hlive as ((cam & Hcam) & _ & (r & Hr) & _).
    rewrite Hcam, Hr. run_page.
    eexists. split; [reflexivity|]. page_fields.
    split; [apply Hmount; exact Hlive|].
    repeat split.
  - unfold dispatch. run_page.
    cbn [filter EventType_eqb fst pforEach handler]. run_page.
    destruct drag; run_page.
    + unfold setMouseX, modify. run_page.
      eexists. split; [reflexivity|]. page_fields.
      split; [apply Hmount; destruct w; exact Hlive|]. repeat split.
    + eexists. split; [reflexivity|]. page_fields.
      split; [apply Hmount; exact Hlive|]. repeat split.
  - unfold dispatch. run_page.
    cbn [filter EventType_eqb fst pforEach handler]. run_page.
    eexists. split; [reflexivity|]. page_fields.
    split; [apply Hmount; exact Hlive|]. repeat split.
  - unfold dispatch. run_page.
    cbn [filter EventType_eqb fst pforEach handler]. run_page.
    eexists. split; [reflexivity|]. page_fields.
    split; [apply Hmount; exact Hlive|]. repeat split.
  - destruct (handle_keeps_mouseX Frame w Hlive) as (w' & E & Hl' & Hm);
      [discriminate|].
    run_page. rewrite E. eexists. split; [reflexivity|]. page_fields.
    split; [apply Hmount; exact Hl'|]. repeat split. exact Hm.
  - destruct (handle_keeps_mouseX (ModelLoaded o an) w Hlive) as (w' & E & Hl' & Hm);
      [discriminate|].
    run_page. rewrite E. eexists. split; [reflexivity|]. page_fields.
    split; [apply Hmount; exact Hl'|]. repeat split. exact Hm.
  - destruct (handle_keeps_mouseX ModelError w Hlive) as (w' & E & Hl' & Hm);
      [discriminate|].
    run_page. rewrite E. eexists. split; [reflexivity|]. page_fields.
    split; [apply Hmount; exact Hl'|]. repeat split. exact Hm.
Qed.

Lemma pageRun_cons (e : PageEvent) (l : list PageEvent) (p p1 : Page) :
  pageStep e p = Done tt p1 -> pageRun (e :: l) p = pageRun l p1.
Proof.
  intros E. unfold pageRun. cbn [pforEach]. unfold pbind. rewrite E. reflexivity.
Qed.

Lemma pageRun_mounted (events : list PageEvent) (p : Page) :
  mounted p -> exists p', pageRun events p = Done tt p' /\ mounted p'.
Proof.
  revert p. induction events as [|e l IH]; intros p Hp.
  - exists p. split; [reflexivity|exact Hp].
  - destruct (pageStep_mounted e p Hp) as (p1 & E1 & H1 & _).
    destruct (IH p1 H1) as (p' & E' & H').
    exists p'. rewrite (pageRun_cons e l p p1 E1). split; assumption.
Qed.

(** X13.  The pointer steers only while the button is held.  On a mounted
    page whose button is up, no sequence of events without a press (mouse
    moves, releases, resizes, frames, loader signals) changes the steering
    input of the service. *)
Theorem no_steering_without_press (events : list PageEvent) (p : Page) :
  mounted p -> isDragging p = false ->
  Forall (fun e => e <> MousePressed) events ->
  exists p',
    pageRun events p = Done tt p' /\ mounted p' /\
    isDragging p' = false /\ mouseX (world p') = mouseX (world p).
Proof.
  intros Hp Hd Hev. revert p Hp Hd.
  induction Hev as [|e l He _ IH]; intros p Hp Hd.
  - exists p. split; [reflexivity|]. split; [exact Hp|].
    split; [exact Hd|reflexivity].
  - destruct (pageStep_mounted e p Hp) as (p1 & E1 & H1 & _ & Hd1 & Hm1 & _).
    assert (Hd1' : isDragging p1 = false).
    { rewrite Hd1. destruct e; try assumption; try reflexivity.
      exfalso. apply He. reflexivity. }
    assert (Hm1' : mouseX (world p1) = mouseX (world p)).
    { rewrite Hm1. destruct e; try reflexivity. rewrite Hd. reflexivity. }
    destruct (IH p1 H1 Hd1') as (p' & E' & H' & Hd' & Hm').
    exists p'. rewrite (pageRun_cons e l p p1 E1).
    split; [exact E'|]. split; [exact H'|]. split; [exact Hd'|congruence].
Qed.

(** From mounting on: moves, a frame and a resize leave the steering input
    at its initial 0. *)
Lemma no_steering_without_press_witness :
  exists p p',
    ngOnInit (fun _ => []) (freshPage (Fin 800) (Fin 600) (Fin 1) true)
    = Done tt p /\
    pageRun [MouseMoved (Fin 400); AnimationFrame; Resized (Fin 640) (Fin 480);
             MouseReleased; MouseMoved (Fin 10)] p = Done tt p' /\
    mouseX (world p') = Fin 0.
Proof.
  destruct (ngOnInit_mounts (fun _ => []) (Fin 800) (Fin 600) (Fin 1))
    as (p & E & Hm & _ & Hd & Hx & _).
  destruct (no_steering_without_press
              [MouseMoved (Fin 400); AnimationFrame; Resized (Fin 640) (Fin 480);
               MouseReleased; MouseMoved (Fin 10)] p Hm Hd)
    as (p' & E' & _ & _ & Hx').
  - repeat constructor; discriminate.
  - exists p, p'. repeat split; try assumption. congruence.
Defined.

(** X14.  A drag sets the steering input to clientX / innerWidth, and the
    value stays after the release: press, move to clientX, release, then
    any events without a new press leave the steering input at
    clientX / innerWidth (the width at the time of the move).  For a
    pointer inside a window of positive width the value lies in [0,1];
    for a pointer right of the window it exceeds 1. *)
Theorem drag_sets_steering (cx : num) (later : list PageEvent) (p : Page) :
  mounted p ->
  Forall (fun e => e <> MousePressed) later ->
  exists p',
    pageRun (MousePressed :: MouseMoved cx :: MouseReleased :: later) p
    = Done tt p' /\
    mouseX (world p') = (cx / innerWidth p)%js /\
    isDragging p' = false /\
    (forall c W : R,
        cx = Fin c -> innerWidth p = Fin W -> (0 < W)%R ->
        exists m, mouseX (world p') = Fin m /\
                  ((0 <= c <= W)%R -> (0 <= m <= 1)%R) /\
                  ((W < c)%R -> (1 < m)%R)).
Proof.
  intros Hp Hl.
  destruct (pageStep_mounted MousePressed p Hp)
    as (p1 & E1 & H1 & _ & Hd1 & Hm1 & _ & Hw1 & _).
  destruct (pageStep_mounted (MouseMoved cx) p1 H1)
    as (p2 & E2 & H2 & _ & Hd2 & Hm2 & _ & Hw2 & _).
  destruct (pageStep_mounted MouseReleased p2 H2)
    as (p3 & E3 & H3 & _ & Hd3 & Hm3 & _ & Hw3 & _).
  destruct (no_steering_without_press later p3 H3 Hd3 Hl)
    as (p' & E' & _ & Hd' & Hm').
  exists p'.
  rewrite (pageRun_cons _ _ p p1 E1), (pageRun_cons _ _ p1 p2 E2),
    (pageRun_cons _ _ p2 p3 E3).
  split; [exact E'|].
  assert (Hx : mouseX (world p') = (cx / innerWidth p)%js).
  { rewrite Hm', Hm3, Hm2, Hd1, Hw1. reflexivity. }
  split; [exact Hx|]. split; [exact Hd'|].
  intros c W -> HW Hpos. rewrite Hx, HW. cbn [div].
  destruct (Req_dec_T W 0) as [H0|_]; [lra|].
  eexists. split; [reflexivity|]. split; intros Hc.
  - split.
    + apply Rmult_le_pos; [lra|]. apply Rlt_le, Rinv_0_lt_compat. lra.
    + apply (Rmult_le_reg_r W); [lra|]. unfold Rdiv.
      rewrite Rmult_assoc, Rinv_l by lra. lra.
  - apply (Rmult_lt_reg_r W); [lra|]. unfold Rdiv.
    rewrite Rmult_assoc, Rinv_l by lra. lra.
Qed.

(** A drag to the middle of a window 800 wide, then a frame. *)
Lemma drag_sets_steering_witness :
  exists p p',
    ngOnInit (fun _ => []) (freshPage (Fin 800) (Fin 600) (Fin 1) true)
    = Done tt p /\
    pageRun [MousePressed; MouseMoved (Fin 400); MouseReleased; AnimationFrame] p
    = Done tt p' /\
    exists m, mouseX (world p') = Fin m /\ (0 <= m <= 1)%R.
Proof.
  destruct (ngOnInit_mounts (fun _ => []) (Fin 800) (Fin 600) (Fin 1))
    as (p & E & Hm & _ & _ & _ & _ & Hw & _).
  destruct (drag_sets_steering (Fin 400) [AnimationFrame] p Hm)
    as (p' & E' & _ & _ & H).
  - repeat constructor; discriminate.
  - destruct (H 400%R 800%R eq_refl Hw) as (m & Hx & Hin & _); [lra|].
    exists p, p'. split; [exact E|]. split; [exact E'|].
    exists m. split; [exact Hx|]. apply Hin. lra.
Defined.

Lemma handle_stopped_mouseX (e : Event) (w : World) :
  stopped w -> (forall v, e <> MouseDrag v) ->
  exists w', handle e w = Ok tt w' /\ stopped w' /\ mouseX w' = mouseX w.
Proof.
  intros ((s & Hs) & Hp) He.
  destruct w as [sc cam rd id p v cv car mx ms gs mats pend nxt ld rel].
  cbn [scene rafPending] in Hs, Hp. subst.
  destruct e as [|u|o a|]; cbn [handle].
  - unfold runFrame. run_monad. cbn [forEach]. unfold ret.
    eexists; split; [reflexivity|]. unfold stopped; world_fields; repeat split; eauto.
  - exfalso. apply (He u). reflexivity.
  - run_monad. destruct ld.
    + unfold onCarLoaded, sceneAdd. destruct a; run_monad;
        (eexists; split; [reflexivity|]); unfold stopped; world_fields;
        repeat split; eauto.
    + eexists; split; [reflexivity|]. unfold stopped; world_fields; repeat split; eauto.
  - run_monad.
    eexists; split; [reflexivity|]. unfold stopped; world_fields; repeat split; eauto.
Qed.

Lemma pageStep_unmounted (e : PageEvent) (p : Page) :
  unmounted p ->
  exists p',
    pageStep e p = Done tt p' /\ unmounted p' /\
    mouseX (world p') = mouseX (world p) /\ view p' = view p /\
    isDragging p' = isDragging p.
Proof.
  intros (Hls & Hst).
  destruct p as [w vw iw ih dpr ls nc ce ne rh mmh mdh muh drag].
  cbn [world listeners] in *. subst.
  assert (Hworld : forall e0, (forall v, e0 <> MouseDrag v) ->
            exists p',
              liftW (handle e0)
                (mkPage w vw iw ih dpr [] nc ce ne rh mmh mdh muh drag)
              = Done tt p' /\ unmounted p' /\
              mouseX (world p') = mouseX w /\ view p' = vw /\
              isDragging p' = drag).
  { intros e0 He0.
    destruct (handle_stopped_mouseX e0 w Hst He0) as (w' & E & Hst' & Hm).
    run_page. rewrite E. eexists. split; [reflexivity|].
    unfold unmounted. page_fields.
    repeat split; first [assumption | reflexivity | apply Hst']. }
  destruct e as [w' h'|cx| | | |o an|]; cbn [pageStep];
    try (unfold dispatch; run_page; cbn [filter pforEach]; run_page;
         eexists; split; [reflexivity|]; unfold unmounted; page_fields;
         repeat split; first [assumption | reflexivity | apply Hst]);
    apply Hworld; discriminate.
Qed.

Lemma pageRun_unmounted (events : list PageEvent) (p : Page) :
  unmounted p ->
  exists p',
    pageRun events p = Done tt p' /\ unmounted p' /\
    mouseX (world p') = mouseX (world p) /\ view p' = view p /\
    isDragging p' = isDragging p.
Proof.
  revert p. induction events as [|e l IH]; intros p Hp.
  - exists p. repeat split; try reflexivity; apply Hp.
  - destruct (pageStep_unmounted e p Hp) as (p1 & E1 & H1 & Hm1 & Hv1 & Hd1).
    destruct (IH p1 H1) as (p' & E' & H' & Hm' & Hv' & Hd').
    exists p'. rewrite (pageRun_cons e l p p1 E1).
    split; [exact E'|]. split; [exact H'|]. repeat split; congruence.
Qed.

Lemma ngOnDestroy_mounted (p : Page) :
  mounted p ->
  exists p1,
    ngOnDestroy p = Done tt p1 /\ unmounted p1 /\
    resizeHandler p1 = None /\ mouseMoveHandler p1 = None /\
    mouseDownHandler p1 = None /\ mouseUpHandler p1 = None /\
    mouseX (world p1) = mouseX (world p) /\ view p1 = view p /\
    isDragging p1 = isDragging p /\
    dispose (world p) = Ok tt (world p1).
Proof.
  intros (Hlive & a & b & c & d & Hls & Ha & Hb & Hc & Hd).
  destruct (dispose_twice (world p))
    as (w1 & D & _ & _ & _ & _ & _ & Hp1 & Hs1).
  destruct (dispose_keeps (world p) w1 D) as (_ & _ & Hmx & _).
  assert (Hst : stopped w1).
  { destruct Hlive as (_ & _ & _ & (s & Hs) & Hid & Hpend & _).
    split.
    - rewrite Hs1, Hs. eauto.
    - rewrite Hp1, Hpend.
      destruct (Nat.eqb_spec (animationId (world p)) 0); [contradiction|].
      cbn [remove].
      destruct (Nat.eq_dec (animationId (world p)) (animationId (world p)));
        [reflexivity|contradiction]. }
  destruct p as [w vw iw ih dpr ls nc ce ne rh mmh mdh muh drag].
  cbn [world listeners resizeHandler mouseMoveHandler mouseDownHandler
       mouseUpHandler] in *. subst.
  unfold ngOnDestroy, removeEventListener. run_page.
  cbn [filter sameListener EventType_eqb fst snd andb negb].
  rewrite !Nat.eqb_refl. cbn [negb andb]. run_page. rewrite D.
  eexists. split; [reflexivity|]. unfold unmounted. page_fields.
  repeat split; try first [assumption | reflexivity | apply Hst].
  repeat (cbn [filter sameListener EventType_eqb fst snd andb negb];
          rewrite ?Nat.eqb_refl).
  reflexivity.
Qed.

(** X15.  [ngOnDestroy] takes back exactly what [ngOnInit] set up.  On a
    fresh page with a canvas, mounting, any events, then [ngOnDestroy]
    leave the window without listeners and the service without a pending
    animation frame.  From then on no event (pointer, resize, frame,
    loader) changes the steering input, the view or the drag flag, and no
    frame is requested again. *)
Theorem destroy_detaches (sampling : Geometry -> list CurveCall)
        (w h dpr : num) (events later : list PageEvent) :
  exists p0 p1 p2,
    (ngOnInit sampling ;; pageRun events)%page (freshPage w h dpr true)
    = Done tt p0 /\
    ngOnDestroy p0 = Done tt p1 /\
    listeners p1 = [] /\
    resizeHandler p1 = None /\ mouseMoveHandler p1 = None /\
    mouseDownHandler p1 = None /\ mouseUpHandler p1 = None /\
    rafPending (world p1) = [] /\
    pageRun later p1 = Done tt p2 /\
    listeners p2 = [] /\ rafPending (world p2) = [] /\
    mouseX (world p2) = mouseX (world p0) /\ view p2 = view p0 /\
    isDragging p2 = isDragging p0.
Proof.
  destruct (ngOnInit_mounts sampling w h dpr) as (p & E & Hm & _).
  destruct (pageRun_mounted events p Hm) as (p0 & E0 & Hm0).
  destruct (ngOnDestroy_mounted p0 Hm0)
    as (p1 & E1 & Hu1 & Hr & Hmm & Hmd & Hmu & Hx1 & Hv1 & Hd1 & _).
  destruct (pageRun_unmounted later p1 Hu1) as (p2 & E2 & Hu2 & Hx2 & Hv2 & Hd2).
  exists p0, p1, p2. unfold pbind. rewrite E, E0.
  split; [reflexivity|]. split; [exact E1|].
  split; [apply Hu1|]. repeat (split; [assumption|]).
  split; [apply Hu1|]. split; [exact E2|].
  split; [apply Hu2|]. split; [apply Hu2|].
  repeat split; congruence.
Qed.

(** X16.  [ngOnDestroy] can be called in any state of the page and a
    second call changes nothing: the listeners it knew are removed once,
    the handler fields are cleared, and the service is disposed of
    idempotently. *)
Theorem ngOnDestroy_idempotent (p : Page) :
  exists p1,
    ngOnDestroy p = Done tt p1 /\
    (ngOnDestroy ;; ngOnDestroy)%page p = Done tt p1 /\
    resizeHandler p1 = None /\ mouseMoveHandler p1 = None /\
    mouseDownHandler p1 = None /\ mouseUpHandler p1 = None.
Proof.
  destruct (dispose_twice (world p)) as (w1 & D & D2 & _).
  destruct p as [w vw iw ih dpr ls nc ce ne rh mmh mdh muh drag].
  cbn [world] in D.
  assert (exists p1,
             ngOnDestroy
               (mkPage w vw iw ih dpr ls nc ce ne rh mmh mdh muh drag)
             = Done tt p1 /\ ngOnDestroy p1 = Done tt p1 /\
             resizeHandler p1 = None /\ mouseMoveHandler p1 = None /\
             mouseDownHandler p1 = None /\ mouseUpHandler p1 = None)
    as (p1 & E1 & E2 & H).
  { unfold ngOnDestroy, removeEventListener.
    destruct rh, mmh, mdh, muh; run_page; rewrite D;
      (eexists; split; [reflexivity|]); run_page; rewrite D2;
      repeat split. }
  exists p1. split; [exact E1|]. split; [|exact H].
  unfold pbind. rewrite E1. exact E2.
Qed.

Lemma pageStep_idle (e : PageEvent) (p : Page) :
  idle p ->
  exists p', pageStep e p = Done tt p' /\ idle p' /\
             consoleErrors p' = consoleErrors p.
Proof.
  intros (Hw & Hls & Hv & Hh).
  destruct p as [w vw iw ih dpr ls nc ce ne rh mmh mdh muh drag].
  cbn [world listeners view] in *. subst.
  destruct e as [w' h'|cx| | | |o an|]; cbn [pageStep];
    try (unfold dispatch; run_page; cbn [filter pforEach]; run_page;
         eexists; split; [reflexivity|]; unfold idle; page_fields;
         repeat split; apply Hh);
    run_page;
    (eexists; split; [reflexivity|]); unfold idle; page_fields;
    repeat split; apply Hh.
Qed.

Lemma pageRun_idle (events : list PageEvent) (p : Page) :
  idle p ->
  exists p', pageRun events p = Done tt p' /\ idle p' /\
             consoleErrors p' = consoleErrors p.
Proof.
  revert p. induction events as [|e l IH]; intros p Hp.
  - exists p. repeat split; try reflexivity; apply Hp.
  - destruct (pageStep_idle e p Hp) as (p1 & E1 & H1 & C1).
    destruct (IH p1 H1) as (p' & E' & H' & C').
    exists p'. rewrite (pageRun_cons e l p p1 E1).
    split; [exact E'|]. split; [exact H'|congruence].
Qed.

(** X17.  Without a canvas the component does nothing but log.  On a
    fresh page whose canvas is missing, [ngOnInit] writes one error to the
    console and returns before touching the service; whatever events
    follow, and after [ngOnDestroy] as well, the service is exactly as
    constructed, the window has no listener, and nothing throws. *)
Theorem missing_canvas_is_inert (sampling : Geometry -> list CurveCall)
        (w h dpr : num) (events : list PageEvent) :
  exists p,
    (ngOnInit sampling ;; pageRun events ;; ngOnDestroy)%page
      (freshPage w h dpr false) = Done tt p /\
    world p = newAnimationService /\ listeners p = [] /\ view p = None /\
    consoleErrors p = 1.
Proof.
  assert (H0 : idle (set_consoleErrors 1 (freshPage w h dpr false))).
  { repeat split. }
  assert (Ei : ngOnInit sampling (freshPage w h dpr false)
               = Done tt (set_consoleErrors 1 (freshPage w h dpr false)))
    by reflexivity.
  assert (Ed : dispose newAnimationService = Ok tt newAnimationService)
    by reflexivity.
  destruct (pageRun_idle events _ H0) as (p1 & E1 & (Hw & Hls & Hv & Hh) & C1).
  destruct Hh as (Hr & Hmm & Hmd & Hmu).
  unfold pbind. rewrite Ei, E1.
  destruct p1 as [w1 vw iw ih dpr1 ls nc ce ne rh mmh mdh muh drag].
  cbn [world listeners view consoleErrors resizeHandler mouseMoveHandler
       mouseDownHandler mouseUpHandler] in *.
  subst. unfold ngOnDestroy. run_page. rewrite Ed.
  eexists. split; [reflexivity|]. page_fields. repeat split.
Qed.

Lemma min_two_capped (d : num) :
  d <> NaN -> (Math_min d (Fin 2) <= Fin 2)%js /\
              ((d <= Fin 2)%js -> Math_min d (Fin 2) = d).
Proof.
  intros Hd. destruct d as [r|[|]|]; cbn [Math_min le]; try contradiction.
  - unfold Rmin. destruct (Rle_dec r 2); split; intros; try reflexivity; lra.
  - split; [lra|]. intros H. discriminate H.
  - split; [reflexivity|]. intros _. reflexivity.
Qed.

(** X18.  [onResize] does nothing while the camera or the renderer is
    missing.  Once both exist it sets the camera aspect to
    innerWidth / innerHeight, sizes the renderer to the window and sets
    the pixel ratio to min(devicePixelRatio, 2): the device's ratio when
    that is at most 2, and never more than 2.  It never touches the
    service's simulation state. *)
Theorem onResize_caps_pixel_ratio (p : Page) :
  exists p',
    onResize p = Done tt p' /\ world p' = world p /\
    (camera (world p) = None \/ renderer (world p) = None -> p' = p) /\
    (camera (world p) <> None -> renderer (world p) <> None ->
     view p' = Some (mkView (innerWidth p / innerHeight p)%js
                            (innerWidth p) (innerHeight p)
                            (Math_min (devicePixelRatio p) (Fin 2))) /\
     (devicePixelRatio p <> NaN ->
      (Math_min (devicePixelRatio p) (Fin 2) <= Fin 2)%js /\
      ((devicePixelRatio p <= Fin 2)%js ->
       Math_min (devicePixelRatio p) (Fin 2) = devicePixelRatio p))).
Proof.
  destruct p as [w vw iw ih dpr ls nc ce ne rh mmh mdh muh drag].
  unfold onResize. run_page.
  destruct (camera w) as [cam|]; destruct (renderer w) as [r|]; run_page;
    (eexists; split; [reflexivity|]); page_fields;
    (split; [reflexivity|]); split;
    try (intros [H|H]; discriminate H);
    try (intros; reflexivity);
    try (intros H; contradiction);
    try (intros _ H; contradiction).
  intros _ _. split; [reflexivity|]. apply min_two_capped.
Qed.

(** A mounted page on a display of pixel ratio 3. *)
Lemma onResize_caps_pixel_ratio_witness :
  exists p p',
    ngOnInit (fun _ => []) (freshPage (Fin 800) (Fin 600) (Fin 3) true)
    = Done tt p /\
    onResize p = Done tt p' /\
    view p' = Some (mkView (Fin 800 / Fin 600)%js (Fin 800) (Fin 600) (Fin 2)).
Proof.
  destruct (ngOnInit_mounts (fun _ => []) (Fin 800) (Fin 600) (Fin 3))
    as (p & E & (Hlive & _) & _ & _ & _ & _ & Hw & Hh & Hd & _).
  destruct (onResize_caps_pixel_ratio p) as (p' & E' & _ & _ & H).
  destruct Hlive as ((cam & Hcam) & _ & (r & Hr) & _).
  destruct H as (Hv & _); [congruence|congruence|].
  exists p, p'. split; [exact E|]. split; [exact E'|].
  rewrite Hv, Hw, Hh, Hd. cbn [Math_min]. unfold Rmin.
  destruct (Rle_dec 3 2); [lra|reflexivity].
Defined.

Lemma add_nonfinite (a b : num) : ~ finite b -> ~ finite (a + b)%js.
Proof.
  destruct a as [r|s|], b as [r'|s'|]; cbn; try tauto.
  destruct (Bool.eqb s s'); cbn; tauto.
Qed.

Lemma steer_nonfinite (m : num) :
  ~ finite m -> ~ finite ((m - Fin 0.5) * Fin 20)%js.
Proof.
  destruct m as [r|s|]; cbn; try tauto.
  destruct (Req_dec_T 20 0); cbn; tauto.
Qed.

(** X19.  Nothing guards against a window without extent.  On a mounted
    page a resize to height 0 makes the camera aspect infinite (positive
    width) or NaN (width 0 as well).  In a window of width 0 a drag stores
    clientX / 0, which is NaN or infinite, as steering input, and the
    next frame puts a non-finite x coordinate into the camera position. *)
Theorem zero_sized_window (p : Page) (W c : R) :
  mounted p ->
  (exists p1,
     pageStep (Resized (Fin W) (Fin 0)) p = Done tt p1 /\
     exists v, view p1 = Some v /\
       ((0 < W)%R -> aspect v = Inf true) /\ (W = 0%R -> aspect v = NaN)) /\
  (innerWidth p = Fin 0 ->
   exists p2 cam,
     pageRun [MousePressed; MouseMoved (Fin c); AnimationFrame] p = Done tt p2 /\
     ~ finite (mouseX (world p2)) /\
     camera (world p2) = Some cam /\ ~ finite (x (position cam))).
Proof.
  intros Hp. split.
  - destruct (pageStep_mounted (Resized (Fin W) (Fin 0)) p Hp)
      as (p1 & E1 & _ & _ & _ & _ & Hv & _).
    exists p1. split; [exact E1|]. eexists. split; [exact Hv|].
    cbn [aspect div]. destruct (Req_dec_T 0 0) as [_|H]; [|contradiction].
    split; intros HW.
    + destruct (Req_dec_T W 0); [lra|]. unfold Rsign_pos.
      destruct (Rlt_dec 0 W); [reflexivity|contradiction].
    + destruct (Req_dec_T W 0); [reflexivity|contradiction].
  - intros Hw.
    destruct (pageStep_mounted MousePressed p Hp)
      as (p1 & E1 & H1 & _ & Hd1 & _ & _ & Hw1 & _).
    destruct (pageStep_mounted (MouseMoved (Fin c)) p1 H1)
      as (p2 & E2 & H2 & _ & _ & Hm2 & _).
    rewrite Hd1, Hw1, Hw in Hm2.
    assert (Hnf : ~ finite (mouseX (world p2))).
    { rewrite Hm2. cbn [div]. destruct (Req_dec_T 0 0) as [_|H]; [|contradiction].
      destruct (Req_dec_T c 0); cbn; tauto. }
    pose proof H2 as (Hlive & _).
    pose proof Hlive as ((cam & Hcam) & (cv & Hcv & _) & (r & Hr) & _ & _ & Hpend & _).
    destruct (animate_eq (set_rafPending [] (world p2)) cam cv r)
      as (w3 & E3 & _ & _ & Hcam3 & _ & _ & _ & _ & Hm3 & _);
      try (destruct (world p2); assumption).
    pose proof (runFrame_eq (world p2) w3 _ Hpend E3) as EF.
    exists (set_world w3 p2). eexists.
    rewrite (pageRun_cons _ _ p p1 E1), (pageRun_cons _ _ p1 p2 E2).
    split; [|split; [|split; [exact Hcam3|]]].
    + unfold pageRun. cbn [pforEach pageStep]. unfold pbind, liftW, pret.
      cbn [handle]. rewrite EF. reflexivity.
    + cbn [world set_world]. rewrite Hm3.
      replace (mouseX (set_rafPending [] (world p2))) with (mouseX (world p2))
        by (destruct (world p2); reflexivity).
      exact Hnf.
    + cbn [position x]. apply add_nonfinite, steer_nonfinite.
      replace (mouseX (set_rafPending [] (world p2))) with (mouseX (world p2))
        by (destruct (world p2); reflexivity).
      exact Hnf.
Qed.

(** A mounted page whose window has width 0. *)
Lemma zero_sized_window_witness :
  exists p p2 cam,
    ngOnInit (fun _ => []) (freshPage (Fin 0) (Fin 600) (Fin 1) true)
    = Done tt p /\
    pageRun [MousePressed; MouseMoved (Fin 5); AnimationFrame] p = Done tt p2 /\
    camera (world p2) = Some cam /\ ~ finite (x (position cam)).
Proof.
  destruct (ngOnInit_mounts (fun _ => []) (Fin 0) (Fin 600) (Fin 1))
    as (p & E & Hm & _ & _ & _ & _ & Hw & _).
  destruct (zero_sized_window p 800 5 Hm) as (_ & H).
  destruct (H Hw) as (p2 & cam & E2 & _ & Hc & Hx).
  exists p, p2, cam. repeat split; assumption.
Defined.

(* ================================================================== *)
(** * The loaded vehicle *)
(* ================================================================== *)

Lemma frames_keep_vehicle (n : nat) (w : World) (car : Object3D) (t : R)
      (a : bool) :
  ready w -> carModel w = Some car ->
  mixer w = (if a then Some (Fin t) else None) ->
  exists w' car',
    frames n w = Ok tt w' /\ carModel w' = Some car' /\
    scale car' = scale car /\
    mixer w' = (if a then Some (Fin (t + INR n * 0.016)) else None).
Proof.
  revert w car t. induction n as [|n IH]; intros w car t Hw Hcar Hmix.
  - exists w, car. split; [reflexivity|]. split; [exact Hcar|].
    split; [reflexivity|]. rewrite Hmix. destruct a; [|reflexivity].
    do 2 f_equal. cbn [INR]. lra.
  - pose proof Hw as (cam & c & r & Hcam & Hc & Hr & Hf).
    destruct (animate_eq w cam c r Hcam Hc Hr)
      as (w1 & E1 & _ & _ & _ & _ & _ & Hcar1 & Hmix1 & _).
    destruct (ready_animate w Hw) as (w1' & E1' & Hw1).
    rewrite E1 in E1'. injection E1' as <-.
    rewrite Hcar in Hcar1. rewrite Hmix in Hmix1.
    match type of Hcar1 with
    | _ = Some ?o => destruct (IH w1 o (t + 0.016)%R Hw1 Hcar1) as (w' & car' & F & Hc' & Hs' & Hm')
    end.
    { rewrite Hmix1. destruct a; reflexivity. }
    exists w', car'. cbn [frames]. unfold bind. rewrite E1.
    split; [exact F|]. split; [exact Hc'|]. split.
    + rewrite Hs'. unfold rotateY. cbn [rotation set_rotation scale]. reflexivity.
    + rewrite Hm'. destruct a; [|reflexivity]. do 2 f_equal.
      rewrite S_INR. lra.
Qed.

(** X20.  When the model arrives, the callback stores it as the vehicle,
    scales it to 0.05 on each axis and appends it to the scene; a mixer is
    created exactly when the model has animations.  Over the following
    frames the vehicle keeps that scale, and the mixer, if any, is advanced
    by the fixed step 0.016 per frame, whatever the velocity: after n
    frames its clock reads n * 0.016. *)
Theorem model_load_effect (o : Object3D) (a : bool) (n : nat) (w : World)
        (s : list SceneChild) :
  waiting w -> scene w = Some s ->
  exists w1 w2 car,
    handle (ModelLoaded o a) w = Ok tt w1 /\
    carModel w1 = Some (set_scale (mkVector3 0.05%R 0.05%R 0.05%R) o) /\
    scene w1 = Some (s ++ [CarModel])%list /\
    loaderPending w1 = false /\
    frames n w1 = Ok tt w2 /\
    carModel w2 = Some car /\
    scale car = mkVector3 0.05%R 0.05%R 0.05%R /\
    mixer w2 = (if a then Some (Fin (INR n * 0.016)) else None).
Proof.
  intros (Hlive & Hcar & Hmix & Hld) Hs.
  destruct (handle_live (ModelLoaded o a) w Hlive) as (w1 & E1 & Hlive1).
  assert (H1 : carModel w1 = Some (set_scale (mkVector3 0.05%R 0.05%R 0.05%R) o) /\
               scene w1 = Some (s ++ [CarModel])%list /\
               loaderPending w1 = false /\
               mixer w1 = (if a then Some (Fin 0) else None)).
  { revert E1. clear Hlive Hlive1.
    destruct w as [sc cam rd id p v cv car mx ms gs mats pend nxt ld rel].
    cbn [scene carModel mixer loaderPending] in *. subst.
    cbn [handle]. unfold onCarLoaded, sceneAdd. run_monad.
    destruct a; run_monad; intros E; injection E as <-; repeat split. }
  destruct H1 as (Hcar1 & Hs1 & Hld1 & Hmix1).
  assert (Hready : ready w1).
  { destruct Hlive1 as ((cam & Hcam) & (c & Hc & Hx) & (r & Hr) & _).
    exists cam, c, r. repeat split; try assumption.
    rewrite Hx. apply rollerCoaster_finitePath. }
  destruct (frames_keep_vehicle n w1 _ 0 a Hready Hcar1 Hmix1)
    as (w2 & car & F & Hc2 & Hsc & Hm2).
  exists w1, w2, car.
  split; [exact E1|]. split; [exact Hcar1|]. split; [exact Hs1|].
  split; [exact Hld1|]. split; [exact F|]. split; [exact Hc2|].
  split; [rewrite Hsc; reflexivity|].
  rewrite Hm2. destruct a; [|reflexivity]. do 2 f_equal. lra.
Qed.

(** The model arrives right after [start], with animations; ten frames. *)
Lemma model_load_effect_witness :
  exists w w1 w2 car,
    (initialize (fun _ => []) ;; start) newAnimationService = Ok tt w /\
    handle (ModelLoaded newObject3D true) w = Ok tt w1 /\
    frames 10 w1 = Ok tt w2 /\
    carModel w2 = Some car /\
    mixer w2 = Some (Fin (INR 10 * 0.016)).
Proof.
  destruct (start_waiting (fun _ => [])) as (w & E & Hw).
  pose proof Hw as ((_ & _ & _ & (s & Hs) & _) & _).
  destruct (model_load_effect newObject3D true 10 w s Hw Hs)
    as (w1 & w2 & car & E1 & _ & _ & _ & F & Hc & _ & Hm).
  exists w, w1, w2, car. repeat split; assumption.
Defined.
